(** * LogoGen: bitmap to stacked-metal layout geometry and LEF macro

    A shallow embedding of [src/LogoGen.py] and the properties of its
    geometry synthesis ([bitmap_to_stacked_logo]) and of its macro
    descriptor ([generate_lef_from_logo]).

    Modelling conventions.
    - The program computes on Python floats. Two readings of them are
      given. In the first, pixel size, design-rule thresholds and
      coordinates are exact rationals [Q]: comparisons, sums, products,
      halving and floor division are the exact operations. It serves for
      the properties that rest on the order of the numbers and on the
      structure of the loops. In the second, the definitions whose names end
      in [64], they are IEEE 754 binary64 doubles with the operations of
      CPython, rounding, infinities, NaN and exceptions included; it serves
      wherever the outcome depends on how the floats are evaluated. The
      power [x ** 2], which CPython hands to the C library, is a function
      argument [pow2] of the second reading.
    - The values of the constraint file are taken as floats, as JSON numbers
      written with a fraction or an exponent are.
    - The thresholded image ([np.array(image, dtype=np.uint8)]) is a list
      of rows of integers, [height] rows of [width] entries.
    - The constraint dictionary is taken after the sorting of lines 42-54:
      the metal, via and exclusion entries in ascending suffix order, and
      the optional ["logo"] entry.  [dict.get(key, default)] is an
      [option] field read with a default.
      The keys [layer] and [datatype], which the file format requires,
      are plain fields.
    - [gdspy.Cell] is the list of the rectangles added, in insertion
      order.  What was added to the cell before an exception is kept in the
      model, and no file is written. *)

From Stdlib Require Import ZArith QArith Qround Qabs List Bool String Ascii Lia Lqa.
From Stdlib Require Import DecimalString.
From Stdlib Require Import Permutation Sorted.
From Stdlib Require Import Floats.
Import ListNotations.

Local Open Scope Q_scope.

(** ** Data model *)

(** A metal or dummy-exclusion entry of the constraint file. *)
Record LayerSpec : Type := mkLayerSpec {
  layer : Z;
  datatype : Z;
  min_width : option Q;
  min_area : option Q
}.

(** A via entry of the constraint file. *)
Record ViaSpec : Type := mkViaSpec {
  via_layer : Z;
  via_datatype : Z;
  via_width : option Q;
  via_height : option Q;
  via_spacing : option Q
}.

(** The ["logo"] entry. *)
Record LogoSpec : Type := mkLogoSpec {
  logo_layer : Z;
  logo_datatype : Z
}.

(** The constraint file after lines 40-54. *)
Record Constraints : Type := mkConstraints {
  metal_layers : list LayerSpec;
  via_layers : list ViaSpec;
  logo : option LogoSpec;
  DMxEXCL_layer_info : list LayerSpec
}.

(** [gdspy.Rectangle((x0, y0), (x1, y1), layer, datatype)]. *)
Record Rectangle : Type := mkRect {
  rx0 : Q;
  ry0 : Q;
  rx1 : Q;
  ry1 : Q;
  rlayer : Z;
  rdatatype : Z
}.

(** The binarised image: [width, height = image.size] and the array. *)
Record PixelGrid : Type := mkGrid {
  width : Z;
  height : Z;
  pixels : list (list Z)
}.

(** The array has [height] rows of [width] entries. *)
Definition wf_grid (g : PixelGrid) : Prop :=
  (0 <= width g)%Z /\ (0 <= height g)%Z /\
  Z.of_nat (List.length (pixels g)) = height g /\
  Forall (fun row => Z.of_nat (List.length row) = width g) (pixels g).

(** [pixels[y, x]]; every index the passes use is in range on a
    well-formed grid (see [pixel_at_in_range]), so the value returned out
    of range is never read there. *)
Definition pixel_at (g : PixelGrid) (y x : Z) : Z :=
  nth (Z.to_nat x) (nth (Z.to_nat y) (pixels g) []) 1%Z.

(** [dict.get(key, default)]. *)
Definition get {A : Type} (field : option A) (default : A) : A :=
  match field with
  | Some v => v
  | None => default
  end.

(** [range(n)]. *)
Definition range (n : Z) : list Z := map Z.of_nat (seq 0 (Z.to_nat n)).

(** [a < b] on floats. *)
Definition Qlt_bool (a b : Q) : bool := negb (Qle_bool b a).

(** ** The cell and the exception *)

(** The exceptions the arithmetic of the synthesis can raise: a float floor
    division by zero (lines 139-140), a power or a conversion to [int] that
    overflows (lines 69, 123, 139-140, 173), and the conversion of a NaN to
    [int] (lines 139-140). *)
Inductive exn : Type := ZeroDivisionError | OverflowError | ValueError.

Inductive result (A : Type) : Type :=
| Ok (a : A)
| Raise (e : exn).
Arguments Ok {A} a.
Arguments Raise {A} e.

(** A computation that adds rectangles to the cell and then returns or
    raises: the rectangles added, in order, and the outcome. *)
Definition Gen (A : Type) : Type := (list Rectangle * result A)%type.

Definition ret {A : Type} (a : A) : Gen A := ([], Ok a).

Definition raise {A : Type} (e : exn) : Gen A := ([], Raise e).

Definition bind {A B : Type} (m : Gen A) (f : A -> Gen B) : Gen B :=
  match snd m with
  | Ok a => (fst m ++ fst (f a), snd (f a))
  | Raise e => (fst m, Raise e)
  end.

(** [cell.add(rect)]. *)
Definition add (r : Rectangle) : Gen unit := ([r], Ok tt).

Declare Scope gen_scope.
Delimit Scope gen_scope with gen.
Notation "x <- m ;; k" := (bind m (fun x => k))
  (at level 61, m at next level, right associativity) : gen_scope.
Notation "m ;; k" := (bind m (fun _ => k))
  (at level 61, right associativity) : gen_scope.
Local Open Scope gen_scope.

(** [for a in xs: body(a)]. *)
Fixpoint for_each {A : Type} (xs : list A) (body : A -> Gen unit) : Gen unit :=
  match xs with
  | [] => ret tt
  | a :: rest => body a ;; for_each rest body
  end.

(** [for i, a in enumerate(xs)], counting from [i]. *)
Fixpoint enumerate_from {A : Type} (i : nat) (xs : list A) : list (nat * A) :=
  match xs with
  | [] => []
  | a :: rest => (i, a) :: enumerate_from (S i) rest
  end.

Definition enumerate {A : Type} (xs : list A) : list (nat * A) :=
  enumerate_from 0 xs.

(** The rectangles a computation added. *)
Definition emitted {A : Type} (m : Gen A) : list Rectangle := fst m.

(** The outcome of a computation. *)
Definition outcome {A : Type} (m : Gen A) : result A := snd m.

(** ** The design-rule gate (lines 69, 123, 173) *)

(** [pixel_size_um < min_width or (pixel_size_um**2) < min_area] is false,
    on exact numbers; [gate64] below is its evaluation in binary64, where
    the power is rounded and can raise OverflowError. *)
Definition gate (pixel_size_um : Q) (spec : LayerSpec) : bool :=
  negb (Qlt_bool pixel_size_um (get (min_width spec) 0)
        || Qlt_bool (pixel_size_um * pixel_size_um) (get (min_area spec) 0)).

(** ** Pass A: diagonal corner fill (lines 64-109) *)

(** One iteration of the loop of lines 65-72. *)
Definition max_min_width_step (pixel_size_um : Q) (max_min_width : Q)
    (spec : LayerSpec) : Q :=
  let min_width := get (min_width spec) 0 in
  let min_area := get (min_area spec) 0 in
  if Qlt_bool pixel_size_um min_width
     || Qlt_bool (pixel_size_um * pixel_size_um) min_area
  then max_min_width
  else if Qlt_bool max_min_width min_width then min_width else max_min_width.

(** Lines 64-72. *)
Definition max_min_width (pixel_size_um : Q) (metals : list LayerSpec) : Q :=
  fold_left (max_min_width_step pixel_size_um) metals 0.

(** The guard of lines 85 and 101, negated: the layer receives the square. *)
Definition corner_gate (pixel_size_um mmw : Q) (spec : LayerSpec) : bool :=
  negb (Qlt_bool pixel_size_um mmw
        || Qlt_bool (mmw * mmw) (get (min_area spec) 0)).

(** The rectangle of lines 87-92 (and 103-108). *)
Definition corner_rect (center_x center_y mmw : Q) (spec : LayerSpec) : Rectangle :=
  let half := mmw / 2 in
  mkRect (center_x - half) (center_y - half)
         (center_x + half) (center_y + half)
         (layer spec) (datatype spec).

(** The loop over the metal layers of lines 81-93 (and 98-109). *)
Definition corner_fill (pixel_size_um mmw center_x center_y : Q)
    (metals : list LayerSpec) : Gen unit :=
  for_each (enumerate metals) (fun im =>
    let spec := snd im in
    if corner_gate pixel_size_um mmw spec
    then add (corner_rect center_x center_y mmw spec)
    else ret tt).

(** Line 78: foreground on the diagonal from top-left to bottom-right,
    background on the other two pixels. *)
Definition pattern1 (b00 b01 b10 b11 : Z) : bool :=
  (b00 =? 0)%Z && (b11 =? 0)%Z && negb (b01 =? 0)%Z && negb (b10 =? 0)%Z.

(** Line 95: foreground on the diagonal from top-right to bottom-left,
    background on the other two pixels. *)
Definition pattern2 (b00 b01 b10 b11 : Z) : bool :=
  (b01 =? 0)%Z && (b10 =? 0)%Z && negb (b00 =? 0)%Z && negb (b11 =? 0)%Z.

(** The body of the loops of lines 74-75 for the window at [(y, x)]. *)
Definition window_fill (g : PixelGrid) (pixel_size_um mmw : Q)
    (metals : list LayerSpec) (y x : Z) : Gen unit :=
  let b00 := pixel_at g y x in
  let b01 := pixel_at g y (x + 1) in
  let b10 := pixel_at g (y + 1) x in
  let b11 := pixel_at g (y + 1) (x + 1) in
  if pattern1 b00 b01 b10 b11 then
    let center_x := inject_Z (x + 1) * pixel_size_um in
    let center_y := inject_Z (height g - (y + 1)) * pixel_size_um in
    corner_fill pixel_size_um mmw center_x center_y metals
  else if pattern2 b00 b01 b10 b11 then
    let center_x := inject_Z (x + 1) * pixel_size_um in
    let center_y := inject_Z (height g - (y + 1)) * pixel_size_um in
    corner_fill pixel_size_um mmw center_x center_y metals
  else ret tt.

(** Lines 64-109. *)
Definition pass_A (g : PixelGrid) (c : Constraints) (pixel_size_um : Q) : Gen unit :=
  let mmw := max_min_width pixel_size_um (metal_layers c) in
  for_each (range (height g - 1)) (fun y =>
    for_each (range (width g - 1)) (fun x =>
      window_fill g pixel_size_um mmw (metal_layers c) y x)).

(** ** Pass B: per-pixel fill and via stacking (lines 112-154) *)

(** [int(a // b)] on exact numbers: the floor of the quotient, and
    ZeroDivisionError for a zero divisor; [floordiv64] below is its
    evaluation in binary64. *)
Definition floordiv (a b : Q) : Gen Z :=
  if Qeq_bool b 0 then raise ZeroDivisionError else ret (Qfloor (a / b)).

(** The rectangle of lines 125-128. *)
Definition pixel_rect (px0 py0 px1 py1 : Q) (spec : LayerSpec) : Rectangle :=
  mkRect px0 py0 px1 py1 (layer spec) (datatype spec).

(** The rectangle of lines 150-153. *)
Definition via_rect (vx0 vy0 via_w via_h : Q) (via_spec : ViaSpec) : Rectangle :=
  mkRect vx0 vy0 (vx0 + via_w) (vy0 + via_h)
         (via_layer via_spec) (via_datatype via_spec).

(** The body of the loops of lines 145-146 for the cell [(i, j)]. *)
Definition via_cell (arr_x0 arr_y0 total_via_w total_via_h via_w via_h px1 py1 : Q)
    (via_spec : ViaSpec) (i j : Z) : Gen unit :=
  let vx0 := arr_x0 + inject_Z i * total_via_w in
  let vy0 := arr_y0 + inject_Z j * total_via_h in
  if Qle_bool (vx0 + via_w) px1 && Qle_bool (vy0 + via_h) py1
  then add (via_rect vx0 vy0 via_w via_h via_spec)
  else ret tt.

(** The default [0.1] of lines 134-135: the double nearest to one tenth,
    3602879701896397 / 2^55. *)
Definition default_via_size : Q := 3602879701896397 # 36028797018963968.

(** Lines 133-154: the via array of one pixel on one via layer. *)
Definition via_array (pixel_size_um px0 py0 px1 py1 : Q) (via_spec : ViaSpec)
    : Gen unit :=
  let via_w := get (via_width via_spec) default_via_size in
  let via_h := get (via_height via_spec) default_via_size in
  let via_spacing := get (via_spacing via_spec) via_w in
  let total_via_w := via_w + via_spacing in
  let total_via_h := via_h + via_spacing in
  num_x <- floordiv pixel_size_um total_via_w ;;
  num_y <- floordiv pixel_size_um total_via_h ;;
  let arr_w := if (0 <? num_x)%Z
               then inject_Z num_x * total_via_w - via_spacing else 0 in
  let arr_h := if (0 <? num_y)%Z
               then inject_Z num_y * total_via_h - via_spacing else 0 in
  let arr_x0 := px0 + (pixel_size_um - arr_w) / 2 in
  let arr_y0 := py0 + (pixel_size_um - arr_h) / 2 in
  for_each (range num_x) (fun i =>
    for_each (range num_y) (fun j =>
      via_cell arr_x0 arr_y0 total_via_w total_via_h via_w via_h px1 py1
               via_spec i j)).

(** Lines 131-154: the via layer at the metal's ordinal, when there is one. *)
Definition via_stack (pixel_size_um px0 py0 px1 py1 : Q)
    (vias : list ViaSpec) (m_idx : nat) : Gen unit :=
  match nth_error vias m_idx with
  | Some via_spec => via_array pixel_size_um px0 py0 px1 py1 via_spec
  | None => ret tt
  end.

(** The body of the loop of line 119 for the metal layer at [m_idx]. *)
Definition pixel_layer (pixel_size_um px0 py0 px1 py1 : Q)
    (vias : list ViaSpec) (im : nat * LayerSpec) : Gen unit :=
  let m_idx := fst im in
  let spec := snd im in
  if gate pixel_size_um spec
  then add (pixel_rect px0 py0 px1 py1 spec) ;;
       via_stack pixel_size_um px0 py0 px1 py1 vias m_idx
  else ret tt.

(** Lines 115-118: the physical box of the pixel at [(y, x)]. *)
Definition pixel_box (g : PixelGrid) (pixel_size_um : Q) (y x : Z)
    : Q * Q * Q * Q :=
  let px0 := inject_Z x * pixel_size_um in
  let py0 := inject_Z (height g - 1 - y) * pixel_size_um in
  let px1 := px0 + pixel_size_um in
  let py1 := py0 + pixel_size_um in
  (px0, py0, px1, py1).

(** The body of the loops of lines 112-113 for the pixel at [(y, x)]. *)
Definition pixel_fill (g : PixelGrid) (c : Constraints) (pixel_size_um : Q)
    (y x : Z) : Gen unit :=
  if (pixel_at g y x =? 0)%Z then
    let '(px0, py0, px1, py1) := pixel_box g pixel_size_um y x in
    for_each (enumerate (metal_layers c))
             (pixel_layer pixel_size_um px0 py0 px1 py1 (via_layers c))
  else ret tt.

(** Lines 112-154. *)
Definition pass_B (g : PixelGrid) (c : Constraints) (pixel_size_um : Q) : Gen unit :=
  for_each (range (height g)) (fun y =>
    for_each (range (width g)) (fun x =>
      pixel_fill g c pixel_size_um y x)).

(** ** Pass C: logo outline (lines 48, 157-166) *)

(** Line 48: [constraints.get("logo", {"layer": 100, "datatype": 0})]. *)
Definition logo_layer_info (c : Constraints) : LogoSpec :=
  get (logo c) (mkLogoSpec 100 0).

(** The rectangle of lines 157-165. *)
Definition logo_rect (g : PixelGrid) (c : Constraints) (pixel_size_um : Q)
    : Rectangle :=
  let x0 := 0 in
  let y0 := 0 in
  let x1 := inject_Z (width g) * pixel_size_um in
  let y1 := inject_Z (height g) * pixel_size_um in
  mkRect x0 y0 x1 y1
         (logo_layer (logo_layer_info c)) (logo_datatype (logo_layer_info c)).

Definition pass_C (g : PixelGrid) (c : Constraints) (pixel_size_um : Q) : Gen unit :=
  add (logo_rect g c pixel_size_um).

(** ** Pass D: dummy-metal exclusion layers (lines 169-180) *)

Definition excl_rect (g : PixelGrid) (pixel_size_um : Q) (spec : LayerSpec)
    : Rectangle :=
  mkRect 0 0 (inject_Z (width g) * pixel_size_um)
         (inject_Z (height g) * pixel_size_um) (layer spec) (datatype spec).

Definition pass_D (g : PixelGrid) (c : Constraints) (pixel_size_um : Q) : Gen unit :=
  for_each (DMxEXCL_layer_info c) (fun spec =>
    if gate pixel_size_um spec
    then add (excl_rect g pixel_size_um spec)
    else ret tt).

(** ** The synthesis as a whole *)

(** Lines 64-180: the four passes on the cell. *)
Definition synthesize (g : PixelGrid) (c : Constraints) (pixel_size_um : Q) : Gen unit :=
  pass_A g c pixel_size_um ;;
  pass_B g c pixel_size_um ;;
  pass_C g c pixel_size_um ;;
  pass_D g c pixel_size_um.

(** [bitmap_to_stacked_logo]: the rectangles of the cell handed to
    [write_gds], or the exception that ended the run before line 182. *)
Definition bitmap_to_stacked_logo (g : PixelGrid) (c : Constraints)
    (pixel_size_um : Q) : result (list Rectangle) :=
  match outcome (synthesize g c pixel_size_um) with
  | Ok _ => Ok (emitted (synthesize g c pixel_size_um))
  | Raise e => Raise e
  end.

(** ** The macro descriptor (lines 188-256) *)

(** The double-quote character of lines 234-235. *)
Definition dquote : string := String (ascii_of_nat 34) EmptyString.

(** Decimal digits of an integer. *)
Definition string_of_Z (z : Z) : string := NilZero.string_of_int (Z.to_int z).

(** Rounding to the nearest integer, ties to the even one: the digit
    selection of the format [.0f]. *)
Definition round_half_even (x : Q) : Z :=
  let f := Qfloor x in
  let d := x - inject_Z f in
  if Qlt_bool d (1 # 2) then f
  else if Qlt_bool (1 # 2) d then (f + 1)%Z
  else if Z.even f then f else (f + 1)%Z.

(** The format [{x:.0f}] of an f-string: a negative value that rounds to
    zero keeps its sign. *)
Definition format_0f (x : Q) : string :=
  let r := round_half_even x in
  if Qlt_bool x 0 && (r =? 0)%Z then "-0"%string else string_of_Z r.

(** Lines 225-226. *)
Definition width_lef (g : PixelGrid) (pixel_size_um units : Q) : Q :=
  inject_Z (width g) * pixel_size_um * units.

Definition height_lef (g : PixelGrid) (pixel_size_um units : Q) : Q :=
  inject_Z (height g) * pixel_size_um * units.

(** The two numbers of the SIZE line, line 243, before formatting, on exact
    numbers; [size_line64] below evaluates them in binary64. *)
Definition size_x (g : PixelGrid) (pixel_size_um units : Q) : Q :=
  width_lef g pixel_size_um units / 1000.

Definition size_y (g : PixelGrid) (pixel_size_um units : Q) : Q :=
  height_lef g pixel_size_um units / 1000.

(** Line 243. *)
Definition size_line (g : PixelGrid) (pixel_size_um units : Q) : string :=
  ("    SIZE " ++ format_0f (size_x g pixel_size_um units) ++ " BY "
   ++ format_0f (size_y g pixel_size_um units) ++ " ;")%string.

(** Lines 229-250: [lef_content]. *)
Definition lef_content (g : PixelGrid) (macro_name : string)
    (pixel_size_um units : Q) : list string :=
  [ "VERSION 5.7 ;";
    "NAMESCASESENSITIVE ON ;";
    "BUSBITCHARS " ++ dquote ++ "[]" ++ dquote ++ " ;";
    "DIVIDERCHAR " ++ dquote ++ "/" ++ dquote ++ " ;";
    "";
    "MACRO " ++ macro_name;
    "    CLASS BLOCK ;";
    "    FOREIGN " ++ macro_name ++ " 0 0 ;";
    "    ORIGIN 0 0 ;";
    size_line g pixel_size_um units;
    "    SYMMETRY X Y R90 ;";
    "";
    "END " ++ macro_name;
    "";
    "END LIBRARY" ]%string.

(** ['\n'.join(lines)]. *)
Definition join_lines (lines : list string) : string :=
  String.concat (String (ascii_of_nat 10) EmptyString) lines.

(** [generate_lef_from_logo]: the text written to the LEF file. *)
Definition generate_lef_from_logo (g : PixelGrid) (macro_name : string)
    (pixel_size_um units : Q) : string :=
  join_lines (lef_content g macro_name pixel_size_um units).

(** ** Sample inputs *)

(** The 2x2 checkerboard with foreground at (0,0) and (1,1). *)
Definition checkerboard : PixelGrid := mkGrid 2 2 [[0; 1]; [1; 0]]%Z.

(** The 2x2 all-foreground grid. *)
Definition all_foreground : PixelGrid := mkGrid 2 2 [[0; 0]; [0; 0]]%Z.

(** A single metal layer with min_width 0.5 and min_area 0.1. *)
Definition metal_half : LayerSpec := mkLayerSpec 10 0 (Some (1 # 2)) (Some (1 # 10)).

(** A single metal layer with min_width 2.0 and no min_area. *)
Definition metal_wide : LayerSpec := mkLayerSpec 11 0 (Some 2) None.

(** A metal layer with min_width 0.14 and min_area 0.083. *)
Definition metal_thin : LayerSpec :=
  mkLayerSpec 12 0 (Some (14 # 100)) (Some (83 # 1000)).

Definition only_metal (m : LayerSpec) : Constraints := mkConstraints [m] [] None [].

(** ** Vocabulary of the properties *)

(** The largest minimum width among the metal layers passing the gate, in
    the words of the specification: attained by a passing layer and an
    upper bound of all of them. *)
Definition largest_qualifying_min_width (ps : Q) (metals : list LayerSpec)
    (w : Q) : Prop :=
  (exists m, In m metals /\ gate ps m = true /\ get (min_width m) 0 == w) /\
  (forall m, In m metals -> gate ps m = true -> get (min_width m) 0 <= w).

(** The window of [(y, x)] shows one of the two diagonal patterns. *)
Definition diagonal (g : PixelGrid) (y x : Z) : bool :=
  pattern1 (pixel_at g y x) (pixel_at g y (x + 1))
           (pixel_at g (y + 1) x) (pixel_at g (y + 1) (x + 1))
  || pattern2 (pixel_at g y x) (pixel_at g y (x + 1))
              (pixel_at g (y + 1) x) (pixel_at g (y + 1) (x + 1)).

(** The shared corner of the window of [(y, x)]. *)
Definition corner_x (pixel_size_um : Q) (x : Z) : Q :=
  inject_Z (x + 1) * pixel_size_um.

Definition corner_y (g : PixelGrid) (pixel_size_um : Q) (y : Z) : Q :=
  inject_Z (height g - (y + 1)) * pixel_size_um.

(** Exactly one diagonal pair of the window is foreground and the other
    two pixels are background, in the words of the specification. *)
Definition exactly_one_diagonal (b00 b01 b10 b11 : Z) : Prop :=
  (b00 = 0%Z /\ b11 = 0%Z /\ b01 <> 0%Z /\ b10 <> 0%Z) \/
  (b01 = 0%Z /\ b10 = 0%Z /\ b00 <> 0%Z /\ b11 <> 0%Z).

(** A uniform window: all foreground or all background. *)
Definition uniform (b00 b01 b10 b11 : Z) : Prop :=
  (b00 = 0%Z /\ b01 = 0%Z /\ b10 = 0%Z /\ b11 = 0%Z) \/
  (b00 <> 0%Z /\ b01 <> 0%Z /\ b10 <> 0%Z /\ b11 <> 0%Z).

(** The rectangles Pass A adds for the window of [(y, x)]. *)
Definition window_rects (g : PixelGrid) (c : Constraints) (pixel_size_um : Q)
    (y x : Z) : list Rectangle :=
  emitted (window_fill g pixel_size_um
             (max_min_width pixel_size_um (metal_layers c)) (metal_layers c) y x).

(** A metal layer with neither min_width nor min_area. *)
Definition metal_plain : LayerSpec := mkLayerSpec 10 0 None None.

(** The area of a rectangle. *)
Definition area (r : Rectangle) : Q := (rx1 r - rx0 r) * (ry1 r - ry0 r).

(** The 1x1 grid with a foreground pixel. *)
Definition single_pixel : PixelGrid := mkGrid 1 1 [[0]]%Z.

(** A via of width 0: its spacing defaults to 0 and its pitch is 0. *)
Definition via_flat : ViaSpec := mkViaSpec 20 0 (Some 0) None None.

(** A via with the default dimensions 0.1 by 0.1 and spacing 0.1. *)
Definition via_default : ViaSpec := mkViaSpec 20 0 None None None.

(** A grid without foreground pixel. *)
Definition no_foreground (g : PixelGrid) : Prop :=
  forall y x, pixel_at g y x <> 0%Z.

(** A 3x1 grid. *)
Definition strip : PixelGrid := mkGrid 3 1 [[0; 1; 0]]%Z.

(** ** Binarisation and the orchestrator (lines 27-31, 259-304) *)

(** The grayscale image of line 29, [Image.open(path).convert('L')]: its
    size and its rows of levels, each from 0 to 255. *)
Record GrayImage : Type := mkGray {
  gray_width : Z;
  gray_height : Z;
  gray : list (list Z)
}.

(** The lookup of line 30: [0 if p < threshold else 255]. *)
Definition binarize (threshold p : Z) : Z :=
  if (p <? threshold)%Z then 0%Z else 255%Z.

(** [threshold_image] followed by lines 57-58: the size of the image and
    its array. The 1-bit image keeps, for each pixel, whether the lookup
    gave 0; the value read for the others is written 255 as in the lookup,
    and the passes only compare pixels with 0. *)
Definition threshold_image (image : GrayImage) (threshold : Z) : PixelGrid :=
  mkGrid (gray_width image) (gray_height image)
         (map (map (binarize threshold)) (gray image)).

(** Every level of the image is between 0 and 255. *)
Definition gray_levels (image : GrayImage) : Prop :=
  Forall (Forall (fun p => (0 <= p <= 255)%Z)) (gray image).

(** The image has [gray_height] rows of [gray_width] levels. *)
Definition wf_gray (image : GrayImage) : Prop :=
  (0 <= gray_width image)%Z /\ (0 <= gray_height image)%Z /\
  Z.of_nat (List.length (gray image)) = gray_height image /\
  Forall (fun row => Z.of_nat (List.length row) = gray_width image) (gray image).

(** What [generate_logo_files] writes and returns: the cell of the GDS
    file, the text of the LEF file when one is requested, and the list
    [results] of messages. *)
Record LogoFiles : Type := mkLogoFiles {
  gds_cell : list Rectangle;
  lef_text : option string;
  results : list string
}.

(** [if output_lef:] on a path that is [None] or a string. *)
Definition requested (output_lef : option string) : bool :=
  match output_lef with
  | Some path => negb (String.eqb path EmptyString)
  | None => false
  end.

(** [generate_logo_files] (lines 259-304): the GDS file first, then the
    LEF file with the default [units=1000]; an exception of the first call
    ends the function before the second. *)
Definition generate_logo_files (image : GrayImage) (c : Constraints)
    (output_gds : string) (output_lef : option string) (macro_name : string)
    (pixel_size_um : Q) (threshold_value : Z) : result LogoFiles :=
  match bitmap_to_stacked_logo (threshold_image image threshold_value) c
                               pixel_size_um with
  | Raise e => Raise e
  | Ok cell =>
      let gds_result := ("GDS file generated: " ++ output_gds)%string in
      if requested output_lef then
        let lef := generate_lef_from_logo (threshold_image image threshold_value)
                     macro_name pixel_size_um 1000 in
        let lef_result := ("LEF file generated: " ++ get output_lef EmptyString)%string in
        Ok (mkLogoFiles cell (Some lef) [gds_result; lef_result])
      else Ok (mkLogoFiles cell None [gds_result])
  end.

(** ** Vocabulary of the further properties *)

(** The foreground pixels of the grid, in the order of the loops of
    lines 112-114. *)
Definition foreground_pixels (g : PixelGrid) : list (Z * Z) :=
  flat_map (fun y =>
    flat_map (fun x => if (pixel_at g y x =? 0)%Z then [(y, x)] else [])
             (range (width g)))
    (range (height g)).

(** A grayscale image of 2x2 levels. *)
Definition gray_sample : GrayImage :=
  mkGray 2 2 [[10; 200]; [130; 90]]%Z.

(** The windows of the grid that show a diagonal pattern, in the order of
    the loops of lines 74-75. *)
Definition diagonal_windows (g : PixelGrid) : list (Z * Z) :=
  flat_map (fun y =>
    flat_map (fun x => if diagonal g y x then [(y, x)] else [])
             (range (width g - 1)))
    (range (height g - 1)).

(** The constraints with other via layers. *)
Definition with_vias (c : Constraints) (vias : list ViaSpec) : Constraints :=
  mkConstraints (metal_layers c) vias (logo c) (DMxEXCL_layer_info c).

(** ** The layer names (lines 42-54) *)

(** The keys of the constraint dictionary are taken in the order of the
    dictionary. [int] and [str.isdigit] are Python's own: the selections
    below take them as [int_of], which gives no value where [int] raises
    ValueError, and [isdigit]. *)

(** [k.startswith(prefix)]. *)
Definition startswith (k prefix : string) : bool := String.prefix prefix k.

(** [k.endswith(suffix)]. *)
Definition endswith (k suffix : string) : bool :=
  (String.length suffix <=? String.length k)%nat
  && String.eqb (substring (String.length k - String.length suffix)
                           (String.length suffix) k) suffix.

(** [x[n:]]. *)
Definition drop_prefix (n : nat) (x : string) : string :=
  substring n (String.length x - n) x.

(** [k[2:-4]], for a key of at least six characters. *)
Definition between_DM_EXCL (k : string) : string :=
  substring 2 (String.length k - 6) k.

(** One step of a stable sort by key: the new element, which came earlier,
    goes before the elements whose key is not smaller. *)
Fixpoint insert_sorted (a : Z * string) (l : list (Z * string))
    : list (Z * string) :=
  match l with
  | [] => [a]
  | b :: rest =>
      if (fst a <=? fst b)%Z then a :: b :: rest
      else b :: insert_sorted a rest
  end.

Definition sort_pairs (l : list (Z * string)) : list (Z * string) :=
  fold_right insert_sorted [] l.

(** The keys of the elements, none when the key function raises on one. *)
Fixpoint keyed (key : string -> option Z) (ks : list string)
    : option (list (Z * string)) :=
  match ks with
  | [] => Some []
  | k :: rest =>
      match key k, keyed key rest with
      | Some z, Some l => Some ((z, k) :: l)
      | _, _ => None
      end
  end.

(** [sorted(ks, key=key)]: stable, ascending; none when [key] raises. *)
Definition sorted_by (key : string -> option Z) (ks : list string)
    : option (list string) :=
  match keyed key ks with
  | Some l => Some (map snd (sort_pairs l))
  | None => None
  end.

(** Lines 42-44. *)
Definition is_metal (k : string) : bool := startswith k "metal".
Definition metal_number (int_of : string -> option Z) (x : string) : option Z :=
  int_of (drop_prefix 5 x).
Definition metal_layer_keys (int_of : string -> option Z) (keys : list string)
    : option (list string) :=
  sorted_by (metal_number int_of) (filter is_metal keys).

(** Lines 45-47. *)
Definition is_via (k : string) : bool := startswith k "via".
Definition via_number (int_of : string -> option Z) (x : string) : option Z :=
  int_of (drop_prefix 3 x).
Definition via_layer_keys (int_of : string -> option Z) (keys : list string)
    : option (list string) :=
  sorted_by (via_number int_of) (filter is_via keys).

(** Lines 51-54. *)
Definition is_DMxEXCL (isdigit : string -> bool) (k : string) : bool :=
  startswith k "DM" && endswith k "EXCL" && isdigit (between_DM_EXCL k).
Definition DMxEXCL_number (int_of : string -> option Z) (x : string) : option Z :=
  int_of (between_DM_EXCL x).
Definition DMxEXCL_layer_keys (int_of : string -> option Z)
    (isdigit : string -> bool) (keys : list string) : option (list string) :=
  sorted_by (DMxEXCL_number int_of) (filter (is_DMxEXCL isdigit) keys).

(** Two names in ascending order of their numbers. *)
Definition key_le (key : string -> option Z) (a b : string) : Prop :=
  exists za zb, key a = Some za /\ key b = Some zb /\ (za <= zb)%Z.

(** What a selection sorted by number is: it fails exactly when a selected
    name has no number, and otherwise lists the selected names, each once
    per occurrence, in ascending order of their numbers. *)
Definition sorted_selection (select : string -> bool)
    (key : string -> option Z) (keys : list string)
    (res : option (list string)) : Prop :=
  (res = None <-> exists k, In k keys /\ select k = true /\ key k = None)
  /\ (forall l, res = Some l ->
        Permutation l (filter select keys) /\ StronglySorted (key_le key) l).

(** A reading of numbers written with the digits 0 to 9 only, for the
    examples; it gives no value on other strings. *)
Fixpoint digits_value (acc : Z) (s : string) : option Z :=
  match s with
  | EmptyString => Some acc
  | String ch rest =>
      let d := (Z.of_nat (nat_of_ascii ch) - 48)%Z in
      if ((0 <=? d) && (d <=? 9))%Z then digits_value (10 * acc + d) rest
      else None
  end.

Definition int_of_digits (s : string) : option Z :=
  match s with
  | EmptyString => None
  | _ => digits_value 0 s
  end.

(** * Evaluation in binary64 *)

(** The definitions above read the floats of the program as exact
    rationals. The definitions below evaluate the same lines on IEEE 754
    binary64 doubles, with the operations of Python's [float]: sums,
    differences, products and quotients rounded to the nearest double, ties
    to even; comparisons that are false on NaN; and the exceptions of the
    floor division, of the power and of [int]. *)

(** ** Doubles *)

(** The conversion of a Python int that takes part in a float operation:
    the nearest double. *)
Definition float_of_Z (n : Z) : float :=
  SF2Prim (binary_normalize prec emax n 0 false).

(** The value of a double that is neither infinite nor NaN. *)
Definition Q_of_float (f : float) : option Q :=
  match Prim2SF f with
  | S754_zero _ => Some 0
  | S754_finite s m e =>
      let v := match e with
               | Z0 => inject_Z (Zpos m)
               | Zpos p => inject_Z (Zpos m * 2 ^ Zpos p)
               | Zneg p => Qmake (Zpos m) (2 ^ p)%positive
               end in
      Some (if s then - v else v)
  | S754_infinity _ => None
  | S754_nan => None
  end.

(** The C function [floor]. *)
Definition floor (f : float) : float :=
  match Q_of_float f with
  | Some q => if (f =? 0)%float then f else float_of_Z (Qfloor q)
  | None => f
  end.

(** The C function [fmod]: the remainder of the division truncated
    towards zero, which is exact and has the sign of [x]. *)
Definition fmod (x y : float) : float :=
  match Prim2SF x, Prim2SF y with
  | S754_nan, _ => nan
  | _, S754_nan => nan
  | S754_infinity _, _ => nan
  | _, S754_zero _ => nan
  | S754_zero _, _ => x
  | S754_finite _ _ _, S754_infinity _ => x
  | S754_finite sx mx ex, S754_finite _ my ey =>
      let e := Z.min ex ey in
      let r := Z.rem (Zpos mx * 2 ^ (ex - e)) (Zpos my * 2 ^ (ey - e)) in
      SF2Prim (binary_normalize prec emax (if sx then (- r)%Z else r) e sx)
  end.

(** [vx // wx] on floats, as CPython's [float_floor_div] computes it. *)
Definition float_floordiv (vx wx : float) : result float :=
  if (wx =? 0)%float then Raise ZeroDivisionError
  else
    let rem := fmod vx wx in
    let div := ((vx - rem) / wx)%float in
    let div := if negb (rem =? 0)%float
                  && xorb (wx <? 0)%float (rem <? 0)%float
               then (div - 1)%float else div in
    if negb (div =? 0)%float then
      let floordiv := floor div in
      Ok (if (0.5 <? div - floordiv)%float then (floordiv + 1)%float
          else floordiv)
    else Ok (if get_sign (vx / wx)%float then neg_zero else zero).

(** [int(f)]. *)
Definition int_of_float (f : float) : result Z :=
  match Prim2SF f with
  | S754_nan => Raise ValueError
  | S754_infinity _ => Raise OverflowError
  | _ => match Q_of_float f with
         | Some q => Ok (if Qlt_bool q 0 then Qceiling q else Qfloor q)
         | None => Ok 0%Z
         end
  end.

(** [int(a // b)] (lines 139-140). *)
Definition floordiv64 (a b : float) : result Z :=
  match float_floordiv a b with
  | Ok q => int_of_float q
  | Raise e => Raise e
  end.

(** [x ** 2] where the C library's [pow] returns the correctly rounded
    square: OverflowError when the square of a finite [x] is not finite.
    CPython evaluates [x ** 2] through [pow], whose last bit depends on the
    C library; the passes below take the power as a function [pow2], and
    this one serves in the examples, on values where the two agree. *)
Definition pow2_rounded (x : float) : result float :=
  let p := (x * x)%float in
  if is_infinity p && negb (is_infinity x) then Raise OverflowError else Ok p.

(** ** The constraint file and the cell, in binary64 *)

Record LayerSpec64 : Type := mkLayerSpec64 {
  layer64 : Z;
  datatype64 : Z;
  min_width64 : option float;
  min_area64 : option float
}.

Record ViaSpec64 : Type := mkViaSpec64 {
  via_layer64 : Z;
  via_datatype64 : Z;
  via_width64 : option float;
  via_height64 : option float;
  via_spacing64 : option float
}.

Record Constraints64 : Type := mkConstraints64 {
  metal_layers64 : list LayerSpec64;
  via_layers64 : list ViaSpec64;
  logo64 : option LogoSpec;
  DMxEXCL_layer_info64 : list LayerSpec64
}.

Record Rectangle64 : Type := mkRect64 {
  fx0 : float;
  fy0 : float;
  fx1 : float;
  fy1 : float;
  flayer : Z;
  fdatatype : Z
}.

Definition Gen64 (A : Type) : Type := (list Rectangle64 * result A)%type.

Definition ret64 {A : Type} (a : A) : Gen64 A := ([], Ok a).

(** The evaluation of an expression, which adds nothing to the cell. *)
Definition eval64 {A : Type} (r : result A) : Gen64 A := ([], r).

Definition bind64 {A B : Type} (m : Gen64 A) (f : A -> Gen64 B) : Gen64 B :=
  match snd m with
  | Ok a => (fst m ++ fst (f a), snd (f a))
  | Raise e => (fst m, Raise e)
  end.

Definition add64 (r : Rectangle64) : Gen64 unit := ([r], Ok tt).

Declare Scope gen64_scope.
Delimit Scope gen64_scope with gen64.
Notation "x <- m ;; k" := (bind64 m (fun x => k))
  (at level 61, m at next level, right associativity) : gen64_scope.
Notation "m ;; k" := (bind64 m (fun _ => k))
  (at level 61, right associativity) : gen64_scope.

Fixpoint for_each64 {A : Type} (xs : list A) (body : A -> Gen64 unit)
    : Gen64 unit :=
  match xs with
  | [] => ret64 tt
  | a :: rest => (body a ;; for_each64 rest body)%gen64
  end.

Definition emitted64 {A : Type} (m : Gen64 A) : list Rectangle64 := fst m.

Definition outcome64 {A : Type} (m : Gen64 A) : result A := snd m.

(** ** The design-rule gate in binary64 (lines 69, 123, 173) *)

(** [pixel_size_um < min_width or (pixel_size_um**2) < min_area] is false;
    the power is not evaluated when the first comparison holds. *)
Definition gate64 (pow2 : float -> result float) (pixel_size_um : float)
    (spec : LayerSpec64) : result bool :=
  if (pixel_size_um <? get (min_width64 spec) 0)%float then Ok false
  else match pow2 pixel_size_um with
       | Ok sq => Ok (negb (sq <? get (min_area64 spec) 0)%float)
       | Raise e => Raise e
       end.

(** ** Pass A in binary64 (lines 64-109) *)

(** Lines 65-72, from the value [max_min_width] reached so far. *)
Fixpoint max_min_width_from64 (pow2 : float -> result float)
    (pixel_size_um max_min_width : float) (metals : list LayerSpec64)
    : result float :=
  match metals with
  | [] => Ok max_min_width
  | spec :: rest =>
      match gate64 pow2 pixel_size_um spec with
      | Raise e => Raise e
      | Ok false => max_min_width_from64 pow2 pixel_size_um max_min_width rest
      | Ok true =>
          let min_width := get (min_width64 spec) 0%float in
          max_min_width_from64 pow2 pixel_size_um
            (if (max_min_width <? min_width)%float then min_width
             else max_min_width) rest
      end
  end.

(** Lines 64-72. *)
Definition max_min_width64 (pow2 : float -> result float)
    (pixel_size_um : float) (metals : list LayerSpec64) : result float :=
  max_min_width_from64 pow2 pixel_size_um 0 metals.

(** The guard of lines 85 and 101, negated. *)
Definition corner_gate64 (pow2 : float -> result float)
    (pixel_size_um mmw : float) (spec : LayerSpec64) : result bool :=
  if (pixel_size_um <? mmw)%float then Ok false
  else match pow2 mmw with
       | Ok sq => Ok (negb (sq <? get (min_area64 spec) 0)%float)
       | Raise e => Raise e
       end.

(** The rectangle of lines 87-92 (and 103-108). *)
Definition corner_rect64 (center_x center_y mmw : float) (spec : LayerSpec64)
    : Rectangle64 :=
  let half := (mmw / 2)%float in
  mkRect64 (center_x - half) (center_y - half)
           (center_x + half) (center_y + half)
           (layer64 spec) (datatype64 spec).

(** The loop over the metal layers of lines 81-93 (and 98-109). *)
Definition corner_fill64 (pow2 : float -> result float)
    (pixel_size_um mmw center_x center_y : float)
    (metals : list LayerSpec64) : Gen64 unit :=
  for_each64 (enumerate metals) (fun im =>
    let spec := snd im in
    (fill <- eval64 (corner_gate64 pow2 pixel_size_um mmw spec) ;;
     if fill then add64 (corner_rect64 center_x center_y mmw spec)
     else ret64 tt)%gen64).

(** The body of the loops of lines 74-75 for the window at [(y, x)]. *)
Definition window_fill64 (pow2 : float -> result float) (g : PixelGrid)
    (pixel_size_um mmw : float) (metals : list LayerSpec64) (y x : Z)
    : Gen64 unit :=
  let b00 := pixel_at g y x in
  let b01 := pixel_at g y (x + 1) in
  let b10 := pixel_at g (y + 1) x in
  let b11 := pixel_at g (y + 1) (x + 1) in
  if pattern1 b00 b01 b10 b11 then
    let center_x := (float_of_Z (x + 1) * pixel_size_um)%float in
    let center_y := (float_of_Z (height g - (y + 1)) * pixel_size_um)%float in
    corner_fill64 pow2 pixel_size_um mmw center_x center_y metals
  else if pattern2 b00 b01 b10 b11 then
    let center_x := (float_of_Z (x + 1) * pixel_size_um)%float in
    let center_y := (float_of_Z (height g - (y + 1)) * pixel_size_um)%float in
    corner_fill64 pow2 pixel_size_um mmw center_x center_y metals
  else ret64 tt.

(** Lines 64-109. *)
Definition pass_A64 (pow2 : float -> result float) (g : PixelGrid)
    (c : Constraints64) (pixel_size_um : float) : Gen64 unit :=
  (mmw <- eval64 (max_min_width64 pow2 pixel_size_um (metal_layers64 c)) ;;
   for_each64 (range (height g - 1)) (fun y =>
     for_each64 (range (width g - 1)) (fun x =>
       window_fill64 pow2 g pixel_size_um mmw (metal_layers64 c) y x)))%gen64.

(** ** Pass B in binary64 (lines 112-154) *)

(** The rectangle of lines 125-128. *)
Definition pixel_rect64 (px0 py0 px1 py1 : float) (spec : LayerSpec64)
    : Rectangle64 :=
  mkRect64 px0 py0 px1 py1 (layer64 spec) (datatype64 spec).

(** The rectangle of lines 150-153. *)
Definition via_rect64 (vx0 vy0 via_w via_h : float) (via_spec : ViaSpec64)
    : Rectangle64 :=
  mkRect64 vx0 vy0 (vx0 + via_w) (vy0 + via_h)
           (via_layer64 via_spec) (via_datatype64 via_spec).

(** The body of the loops of lines 145-146 for the cell [(i, j)]. *)
Definition via_cell64
    (arr_x0 arr_y0 total_via_w total_via_h via_w via_h px1 py1 : float)
    (via_spec : ViaSpec64) (i j : Z) : Gen64 unit :=
  let vx0 := (arr_x0 + float_of_Z i * total_via_w)%float in
  let vy0 := (arr_y0 + float_of_Z j * total_via_h)%float in
  if (vx0 + via_w <=? px1)%float && (vy0 + via_h <=? py1)%float
  then add64 (via_rect64 vx0 vy0 via_w via_h via_spec)
  else ret64 tt.

(** The default [0.1] of lines 134-135. *)
Definition default_via_size64 : float := 0x1.999999999999ap-4%float.

(** Lines 133-154: the via array of one pixel on one via layer. *)
Definition via_array64 (pixel_size_um px0 py0 px1 py1 : float)
    (via_spec : ViaSpec64) : Gen64 unit :=
  let via_w := get (via_width64 via_spec) default_via_size64 in
  let via_h := get (via_height64 via_spec) default_via_size64 in
  let via_spacing := get (via_spacing64 via_spec) via_w in
  let total_via_w := (via_w + via_spacing)%float in
  let total_via_h := (via_h + via_spacing)%float in
  (num_x <- eval64 (floordiv64 pixel_size_um total_via_w) ;;
   num_y <- eval64 (floordiv64 pixel_size_um total_via_h) ;;
   let arr_w := if (0 <? num_x)%Z
                then (float_of_Z num_x * total_via_w - via_spacing)%float
                else 0%float in
   let arr_h := if (0 <? num_y)%Z
                then (float_of_Z num_y * total_via_h - via_spacing)%float
                else 0%float in
   let arr_x0 := (px0 + (pixel_size_um - arr_w) / 2)%float in
   let arr_y0 := (py0 + (pixel_size_um - arr_h) / 2)%float in
   for_each64 (range num_x) (fun i =>
     for_each64 (range num_y) (fun j =>
       via_cell64 arr_x0 arr_y0 total_via_w total_via_h via_w via_h px1 py1
                  via_spec i j)))%gen64.

(** Lines 131-154: the via layer at the metal's ordinal, when there is one. *)
Definition via_stack64 (pixel_size_um px0 py0 px1 py1 : float)
    (vias : list ViaSpec64) (m_idx : nat) : Gen64 unit :=
  match nth_error vias m_idx with
  | Some via_spec => via_array64 pixel_size_um px0 py0 px1 py1 via_spec
  | None => ret64 tt
  end.

(** The body of the loop of line 119 for the metal layer at [m_idx]. *)
Definition pixel_layer64 (pow2 : float -> result float)
    (pixel_size_um px0 py0 px1 py1 : float)
    (vias : list ViaSpec64) (im : nat * LayerSpec64) : Gen64 unit :=
  let m_idx := fst im in
  let spec := snd im in
  (fill <- eval64 (gate64 pow2 pixel_size_um spec) ;;
   if fill
   then add64 (pixel_rect64 px0 py0 px1 py1 spec) ;;
        via_stack64 pixel_size_um px0 py0 px1 py1 vias m_idx
   else ret64 tt)%gen64.

(** Lines 115-118: the physical box of the pixel at [(y, x)]. *)
Definition pixel_box64 (g : PixelGrid) (pixel_size_um : float) (y x : Z)
    : float * float * float * float :=
  let px0 := (float_of_Z x * pixel_size_um)%float in
  let py0 := (float_of_Z (height g - 1 - y) * pixel_size_um)%float in
  let px1 := (px0 + pixel_size_um)%float in
  let py1 := (py0 + pixel_size_um)%float in
  (px0, py0, px1, py1).

(** The body of the loops of lines 112-113 for the pixel at [(y, x)]. *)
Definition pixel_fill64 (pow2 : float -> result float) (g : PixelGrid)
    (c : Constraints64) (pixel_size_um : float) (y x : Z) : Gen64 unit :=
  if (pixel_at g y x =? 0)%Z then
    let '(px0, py0, px1, py1) := pixel_box64 g pixel_size_um y x in
    for_each64 (enumerate (metal_layers64 c))
               (pixel_layer64 pow2 pixel_size_um px0 py0 px1 py1
                              (via_layers64 c))
  else ret64 tt.

(** Lines 112-154. *)
Definition pass_B64 (pow2 : float -> result float) (g : PixelGrid)
    (c : Constraints64) (pixel_size_um : float) : Gen64 unit :=
  for_each64 (range (height g)) (fun y =>
    for_each64 (range (width g)) (fun x =>
      pixel_fill64 pow2 g c pixel_size_um y x)).

(** ** Pass C and Pass D in binary64 (lines 156-180) *)

Definition logo_layer_info64 (c : Constraints64) : LogoSpec :=
  get (logo64 c) (mkLogoSpec 100 0).

(** The rectangle of lines 157-165. *)
Definition logo_rect64 (g : PixelGrid) (c : Constraints64)
    (pixel_size_um : float) : Rectangle64 :=
  let x0 := 0%float in
  let y0 := 0%float in
  let x1 := (float_of_Z (width g) * pixel_size_um)%float in
  let y1 := (float_of_Z (height g) * pixel_size_um)%float in
  mkRect64 x0 y0 x1 y1
           (logo_layer (logo_layer_info64 c))
           (logo_datatype (logo_layer_info64 c)).

Definition pass_C64 (g : PixelGrid) (c : Constraints64)
    (pixel_size_um : float) : Gen64 unit :=
  add64 (logo_rect64 g c pixel_size_um).

(** The rectangle of lines 176-179. *)
Definition excl_rect64 (g : PixelGrid) (pixel_size_um : float)
    (spec : LayerSpec64) : Rectangle64 :=
  mkRect64 0 0 (float_of_Z (width g) * pixel_size_um)
           (float_of_Z (height g) * pixel_size_um)
           (layer64 spec) (datatype64 spec).

(** Lines 169-180. *)
Definition pass_D64 (pow2 : float -> result float) (g : PixelGrid)
    (c : Constraints64) (pixel_size_um : float) : Gen64 unit :=
  for_each64 (DMxEXCL_layer_info64 c) (fun spec =>
    (keep <- eval64 (gate64 pow2 pixel_size_um spec) ;;
     if keep then add64 (excl_rect64 g pixel_size_um spec)
     else ret64 tt)%gen64).

(** ** The synthesis as a whole, in binary64 *)

(** Lines 64-180. *)
Definition synthesize64 (pow2 : float -> result float) (g : PixelGrid)
    (c : Constraints64) (pixel_size_um : float) : Gen64 unit :=
  (pass_A64 pow2 g c pixel_size_um ;;
   pass_B64 pow2 g c pixel_size_um ;;
   pass_C64 g c pixel_size_um ;;
   pass_D64 pow2 g c pixel_size_um)%gen64.

(** [bitmap_to_stacked_logo]: the rectangles of the cell handed to
    [write_gds], or the exception that ended the run before line 182. *)
Definition bitmap_to_stacked_logo64 (pow2 : float -> result float)
    (g : PixelGrid) (c : Constraints64) (pixel_size_um : float)
    : result (list Rectangle64) :=
  match outcome64 (synthesize64 pow2 g c pixel_size_um) with
  | Ok _ => Ok (emitted64 (synthesize64 pow2 g c pixel_size_um))
  | Raise e => Raise e
  end.

(** ** The SIZE line in binary64 (lines 225-226, 243) *)

(** The format [.0f] of a double: the integer nearest to its value, ties
    to the even one, with the sign of the double; [inf] and [nan] for the
    others. *)
Definition format_0f64 (f : float) : string :=
  match Q_of_float f with
  | Some q =>
      if get_sign f && (round_half_even q =? 0)%Z then "-0"%string
      else string_of_Z (round_half_even q)
  | None =>
      if is_nan f then "nan"%string
      else if get_sign f then "-inf"%string else "inf"%string
  end.

(** Lines 225-226. *)
Definition width_lef64 (g : PixelGrid) (pixel_size_um units : float) : float :=
  (float_of_Z (width g) * pixel_size_um * units)%float.

Definition height_lef64 (g : PixelGrid) (pixel_size_um units : float) : float :=
  (float_of_Z (height g) * pixel_size_um * units)%float.

(** Line 243. *)
Definition size_line64 (g : PixelGrid) (pixel_size_um units : float) : string :=
  ("    SIZE " ++ format_0f64 (width_lef64 g pixel_size_um units / 1000)%float
   ++ " BY " ++ format_0f64 (height_lef64 g pixel_size_um units / 1000)%float
   ++ " ;")%string.

(** Lines 229-250: [lef_content]. *)
Definition lef_content64 (g : PixelGrid) (macro_name : string)
    (pixel_size_um units : float) : list string :=
  [ "VERSION 5.7 ;";
    "NAMESCASESENSITIVE ON ;";
    "BUSBITCHARS " ++ dquote ++ "[]" ++ dquote ++ " ;";
    "DIVIDERCHAR " ++ dquote ++ "/" ++ dquote ++ " ;";
    "";
    "MACRO " ++ macro_name;
    "    CLASS BLOCK ;";
    "    FOREIGN " ++ macro_name ++ " 0 0 ;";
    "    ORIGIN 0 0 ;";
    size_line64 g pixel_size_um units;
    "    SYMMETRY X Y R90 ;";
    "";
    "END " ++ macro_name;
    "";
    "END LIBRARY" ]%string.

(** ** Vocabulary of the properties in binary64 *)

(** The via dimensions with their defaults (lines 134-136) and the two
    pitches (lines 137-138), as evaluated. *)
Definition via_w64 (v : ViaSpec64) : float :=
  get (via_width64 v) default_via_size64.
Definition via_h64 (v : ViaSpec64) : float :=
  get (via_height64 v) default_via_size64.
Definition via_s64 (v : ViaSpec64) : float :=
  get (via_spacing64 v) (via_w64 v).
Definition pitch_x64 (v : ViaSpec64) : float := (via_w64 v + via_s64 v)%float.
Definition pitch_y64 (v : ViaSpec64) : float := (via_h64 v + via_s64 v)%float.

(** The footprint of an array of [n] vias on one axis (lines 141-142) and
    the coordinate at which it starts (lines 143-144). *)
Definition footprint64 (n : Z) (pitch spacing : float) : float :=
  if (0 <? n)%Z then (float_of_Z n * pitch - spacing)%float else 0%float.
Definition arr_start64 (pixel_size_um p0 : float) (n : Z)
    (pitch spacing : float) : float :=
  (p0 + (pixel_size_um - footprint64 n pitch spacing) / 2)%float.

(** The via of the grid cell [(i, j)] of an array of [nx] by [ny] vias
    (lines 147-153). *)
Definition via_at64 (pixel_size_um px0 py0 : float) (v : ViaSpec64)
    (nx ny i j : Z) : Rectangle64 :=
  via_rect64
    (arr_start64 pixel_size_um px0 nx (pitch_x64 v) (via_s64 v)
     + float_of_Z i * pitch_x64 v)%float
    (arr_start64 pixel_size_um py0 ny (pitch_y64 v) (via_s64 v)
     + float_of_Z j * pitch_y64 v)%float
    (via_w64 v) (via_h64 v) v.

(** The guard of line 149 on a via. *)
Definition via_fits64 (px1 py1 : float) (r : Rectangle64) : bool :=
  (fx1 r <=? px1)%float && (fy1 r <=? py1)%float.

(** The cells of the grid that pass the guard, column by column. *)
Definition via_cells64 (pixel_size_um px0 py0 px1 py1 : float)
    (v : ViaSpec64) (nx ny : Z) : list Rectangle64 :=
  flat_map (fun i =>
    filter (via_fits64 px1 py1)
           (map (via_at64 pixel_size_um px0 py0 v nx ny i) (range ny)))
    (range nx).

(** The rectangles the loop body of line 119 adds for one pixel box and
    one metal layer when it completes. *)
Definition layer_rects64 (pow2 : float -> result float)
    (pixel_size_um px0 py0 px1 py1 : float)
    (vias : list ViaSpec64) (im : nat * LayerSpec64) : list Rectangle64 :=
  match gate64 pow2 pixel_size_um (snd im) with
  | Ok true =>
      pixel_rect64 px0 py0 px1 py1 (snd im)
      :: emitted64 (via_stack64 pixel_size_um px0 py0 px1 py1 vias (fst im))
  | _ => []
  end.

(** The rectangles Pass B adds for the pixel at [(y, x)] when it completes. *)
Definition pixel_rects64 (pow2 : float -> result float) (g : PixelGrid)
    (c : Constraints64) (pixel_size_um : float) (y x : Z)
    : list Rectangle64 :=
  if (pixel_at g y x =? 0)%Z then
    flat_map (layer_rects64 pow2 pixel_size_um
                (float_of_Z x * pixel_size_um)%float
                (float_of_Z (height g - 1 - y) * pixel_size_um)%float
                (float_of_Z x * pixel_size_um + pixel_size_um)%float
                (float_of_Z (height g - 1 - y) * pixel_size_um
                 + pixel_size_um)%float
                (via_layers64 c))
             (enumerate (metal_layers64 c))
  else [].

(** The fill rectangle of the pixel at [(y, x)] on a metal layer. *)
Definition fill_rect64 (g : PixelGrid) (pixel_size_um : float) (y x : Z)
    (spec : LayerSpec64) : Rectangle64 :=
  mkRect64 (float_of_Z x * pixel_size_um)%float
           (float_of_Z (height g - 1 - y) * pixel_size_um)%float
           (float_of_Z x * pixel_size_um + pixel_size_um)%float
           (float_of_Z (height g - 1 - y) * pixel_size_um + pixel_size_um)%float
           (layer64 spec) (datatype64 spec).

(** The layer passes its gate: the test of lines 69, 123 and 173 is
    evaluated without exception and is false. *)
Definition passes64 (pow2 : float -> result float) (pixel_size_um : float)
    (spec : LayerSpec64) : bool :=
  match gate64 pow2 pixel_size_um spec with
  | Ok true => true
  | _ => false
  end.

(** The area of a rectangle, computed on doubles. *)
Definition area64 (r : Rectangle64) : float :=
  ((fx1 r - fx0 r) * (fy1 r - fy0 r))%float.

(** ** Sample inputs in binary64 *)

(** A metal layer with neither min_width nor min_area. *)
Definition metal_plain64 : LayerSpec64 := mkLayerSpec64 10 0 None None.

(** A metal layer with min_width 0.5 and min_area 0.1. *)
Definition metal_half64 : LayerSpec64 :=
  mkLayerSpec64 10 0 (Some 0.5%float) (Some 0x1.999999999999ap-4%float).

Definition only_metal64 (m : LayerSpec64) : Constraints64 :=
  mkConstraints64 [m] [] None [].

(** One metal layer and one via layer. *)
Definition metal_and_via64 (m : LayerSpec64) (v : ViaSpec64) : Constraints64 :=
  mkConstraints64 [m] [v] None [].

(** A via with the default dimensions 0.1 by 0.1 and spacing 0.1. *)
Definition via_default64 : ViaSpec64 := mkViaSpec64 20 0 None None None.

(** A via of width 0.0: its spacing defaults to 0.0 and its pitch is 0.0. *)
Definition via_flat64 : ViaSpec64 :=
  mkViaSpec64 20 0 (Some 0%float) None None.

(** A via of 0.3 by 0.3 with spacing 0.0. *)
Definition via_03 : ViaSpec64 :=
  mkViaSpec64 20 0 (Some 0x1.3333333333333p-2%float)
              (Some 0x1.3333333333333p-2%float) (Some 0%float).

(** The pixel sizes 0.6, 2.3 and 1e200. *)
Definition pixel_size_06 : float := 0x1.3333333333333p-1%float.
Definition pixel_size_23 : float := 0x1.2666666666666p+1%float.
Definition pixel_size_1e200 : float := 0x1.4e718d7d7625ap+664%float.

(** A row of three foreground pixels. *)
Definition row3 : PixelGrid := mkGrid 3 1 [[0; 0; 0]]%Z.

(** A row of twenty-five foreground pixels. *)
Definition row25 : PixelGrid := mkGrid 25 1 [repeat 0%Z 25].

(** * Properties *)

(** Linear arithmetic on [Q] with halving written as a product. *)
Ltac lra_half := unfold Qdiv in *; change (/ 2) with (1 # 2) in *; lra.

(** ** Comparisons *)

Lemma Qlt_bool_iff (a b : Q) : Qlt_bool a b = true <-> a < b.
Proof.
  unfold Qlt_bool. rewrite negb_true_iff.
  split; intro H.
  - apply Qnot_le_lt. intro Hle. apply Qle_bool_iff in Hle. congruence.
  - destruct (Qle_bool b a) eqn:E; [|reflexivity].
    apply Qle_bool_iff in E. exfalso. apply (Qlt_not_le _ _ H E).
Qed.

Lemma Qlt_bool_false_iff (a b : Q) : Qlt_bool a b = false <-> b <= a.
Proof.
  unfold Qlt_bool. rewrite negb_false_iff. apply Qle_bool_iff.
Qed.

(** The gate passes exactly when both design rules are met. *)
Lemma gate_iff (ps : Q) (spec : LayerSpec) :
  gate ps spec = true <->
  get (min_width spec) 0 <= ps /\ get (min_area spec) 0 <= ps * ps.
Proof.
  unfold gate. rewrite negb_true_iff, orb_false_iff, !Qlt_bool_false_iff.
  reflexivity.
Qed.

Lemma corner_gate_iff (ps mmw : Q) (spec : LayerSpec) :
  corner_gate ps mmw spec = true <->
  mmw <= ps /\ get (min_area spec) 0 <= mmw * mmw.
Proof.
  unfold corner_gate. rewrite negb_true_iff, orb_false_iff, !Qlt_bool_false_iff.
  reflexivity.
Qed.

(** ** Loops *)

Section Loops.
Context {A : Type}.
Variable body : A -> Gen unit.

Lemma bind_ok (m : Gen unit) (k : Gen unit) :
  outcome m = Ok tt ->
  bind m (fun _ => k) = (emitted m ++ emitted k, outcome k).
Proof.
  unfold bind, outcome, emitted. intros ->. reflexivity.
Qed.

(** A loop whose iterations all return emits their rectangles in order. *)
Lemma for_each_ok (xs : list A) :
  (forall a, In a xs -> outcome (body a) = Ok tt) ->
  for_each xs body = (flat_map (fun a => emitted (body a)) xs, Ok tt).
Proof.
  induction xs as [|a rest IH]; intros Hok; simpl.
  - reflexivity.
  - rewrite bind_ok by (apply Hok; now left).
    rewrite IH by (intros b Hb; apply Hok; now right).
    reflexivity.
Qed.

(** A loop whose iterations do nothing does nothing. *)
Lemma for_each_skip (xs : list A) :
  (forall a, In a xs -> body a = ret tt) ->
  for_each xs body = ret tt.
Proof.
  intros H. rewrite for_each_ok.
  - f_equal. induction xs as [|a rest IH]; simpl; [reflexivity|].
    rewrite (H a) by now left. simpl. apply IH.
    intros b Hb. apply H. now right.
  - intros a Ha. rewrite (H a Ha). reflexivity.
Qed.

End Loops.

Lemma range_nonpos (n : Z) : (n <= 0)%Z -> range n = [].
Proof.
  intros H. unfold range.
  replace (Z.to_nat n) with 0%nat by lia. reflexivity.
Qed.

Lemma in_range (n i : Z) : In i (range n) <-> (0 <= i < n)%Z.
Proof.
  unfold range. rewrite in_map_iff. split.
  - intros [k [<- Hk]]. apply in_seq in Hk. lia.
  - intros H. exists (Z.to_nat i). split; [lia|]. apply in_seq. lia.
Qed.

Lemma length_range (n : Z) : List.length (range n) = Z.to_nat n.
Proof. unfold range. now rewrite length_map, length_seq. Qed.

Lemma in_enumerate_from {A : Type} (xs : list A) (i k : nat) (a : A) :
  In (k, a) (enumerate_from i xs) <-> (i <= k)%nat /\ nth_error xs (k - i) = Some a.
Proof.
  revert i. induction xs as [|b rest IH]; intros i; simpl.
  - split; [contradiction|]. intros [_ H]. destruct (k - i)%nat; discriminate.
  - rewrite IH. split.
    + intros [H|[H1 H2]].
      * inversion H; subst. split; [lia|]. now replace (k - k)%nat with 0%nat by lia.
      * split; [lia|]. replace (k - i)%nat with (S (k - S i)) by lia. exact H2.
    + intros [H1 H2]. destruct (Nat.eq_dec i k) as [->|Hne].
      * left. replace (k - k)%nat with 0%nat in H2 by lia. simpl in H2. congruence.
      * right. split; [lia|].
        replace (k - i)%nat with (S (k - S i)) in H2 by lia. exact H2.
Qed.

Lemma map_snd_enumerate_from {A : Type} (xs : list A) (i : nat) :
  map snd (enumerate_from i xs) = xs.
Proof.
  revert i. induction xs as [|a rest IH]; intros i; simpl; [reflexivity|].
  now rewrite IH.
Qed.

(** Every index the passes read is inside the array of a well-formed grid. *)
Lemma pixel_at_in_range (g : PixelGrid) (y x : Z) :
  wf_grid g -> (0 <= y < height g)%Z -> (0 <= x < width g)%Z ->
  exists row, nth_error (pixels g) (Z.to_nat y) = Some row /\
              nth_error row (Z.to_nat x) = Some (pixel_at g y x).
Proof.
  intros (Hw & Hh & Hlen & Hrows) Hy Hx.
  assert (Hy' : (Z.to_nat y < List.length (pixels g))%nat) by lia.
  destruct (nth_error (pixels g) (Z.to_nat y)) as [row|] eqn:E.
  2:{ apply nth_error_None in E. lia. }
  exists row. split; [reflexivity|].
  rewrite Forall_forall in Hrows.
  assert (Hrow : Z.of_nat (List.length row) = width g).
  { apply Hrows. eapply nth_error_In; eauto. }
  unfold pixel_at. rewrite (nth_error_nth _ _ [] E).
  apply nth_error_nth'. lia.
Qed.

Lemma for_each_map {A B : Type} (f : A -> B) (body : B -> Gen unit) (xs : list A) :
  for_each xs (fun a => body (f a)) = for_each (map f xs) body.
Proof.
  induction xs as [|a rest IH]; simpl; [reflexivity|]. now rewrite IH.
Qed.

Lemma for_each_enumerate {A : Type} (body : A -> Gen unit) (xs : list A) :
  for_each (enumerate xs) (fun im => body (snd im)) = for_each xs body.
Proof.
  unfold enumerate. rewrite for_each_map, map_snd_enumerate_from. reflexivity.
Qed.

(** A loop that adds at most one rectangle per element, under a guard. *)
Lemma for_each_guarded {A : Type} (p : A -> bool) (r : A -> Rectangle) (xs : list A) :
  for_each xs (fun a => if p a then add (r a) else ret tt)
  = (map r (filter p xs), Ok tt).
Proof.
  rewrite for_each_ok.
  - f_equal. induction xs as [|a rest IH]; simpl; [reflexivity|].
    destruct (p a); simpl; now rewrite IH.
  - intros a _. now destruct (p a).
Qed.

(** ** Pass A: the width of the corner square *)

Section MaxMinWidth.
Variable ps : Q.

Lemma step_failing (acc : Q) (m : LayerSpec) :
  gate ps m = false -> max_min_width_step ps acc m = acc.
Proof.
  unfold gate, max_min_width_step. rewrite negb_false_iff. now intros ->.
Qed.

Lemma step_passing (acc : Q) (m : LayerSpec) :
  gate ps m = true ->
  max_min_width_step ps acc m = if Qlt_bool acc (get (min_width m) 0)
               then get (min_width m) 0 else acc.
Proof.
  unfold gate, max_min_width_step. rewrite negb_true_iff. now intros ->.
Qed.

Lemma step_ge (acc : Q) (m : LayerSpec) : acc <= max_min_width_step ps acc m.
Proof.
  destruct (gate ps m) eqn:G.
  - rewrite step_passing by assumption.
    destruct (Qlt_bool acc (get (min_width m) 0)) eqn:E.
    + apply Qlt_bool_iff in E. now apply Qlt_le_weak.
    + apply Qle_refl.
  - rewrite step_failing by assumption. apply Qle_refl.
Qed.

Lemma step_bounds (acc : Q) (m : LayerSpec) :
  gate ps m = true -> get (min_width m) 0 <= max_min_width_step ps acc m.
Proof.
  intros G. rewrite step_passing by assumption.
  destruct (Qlt_bool acc (get (min_width m) 0)) eqn:E.
  - apply Qle_refl.
  - now apply Qlt_bool_false_iff in E.
Qed.

Lemma fold_ge (metals : list LayerSpec) (acc : Q) :
  acc <= fold_left (max_min_width_step ps) metals acc.
Proof.
  revert acc. induction metals as [|m rest IH]; intros acc; simpl.
  - apply Qle_refl.
  - eapply Qle_trans; [apply step_ge | apply IH].
Qed.

(** The result bounds the minimum width of every layer passing the gate. *)
Lemma fold_upper_bound (metals : list LayerSpec) (acc : Q) (m : LayerSpec) :
  In m metals -> gate ps m = true ->
  get (min_width m) 0 <= fold_left (max_min_width_step ps) metals acc.
Proof.
  revert acc. induction metals as [|m' rest IH]; intros acc Hin G; simpl.
  - contradiction.
  - destruct Hin as [->|Hin].
    + eapply Qle_trans; [apply step_bounds; exact G | apply fold_ge].
    + now apply IH.
Qed.

(** The result is the initial value or the minimum width of a layer
    passing the gate. *)
Lemma fold_attained (metals : list LayerSpec) (acc : Q) :
  fold_left (max_min_width_step ps) metals acc = acc \/
  exists m, In m metals /\ gate ps m = true /\
            fold_left (max_min_width_step ps) metals acc = get (min_width m) 0.
Proof.
  revert acc. induction metals as [|m rest IH]; intros acc; simpl.
  - now left.
  - destruct (gate ps m) eqn:G.
    + destruct (IH (max_min_width_step ps acc m)) as [H|(m' & Hin & G' & H)].
      * rewrite H. rewrite step_passing by assumption.
        destruct (Qlt_bool acc (get (min_width m) 0)).
        -- right. exists m. auto.
        -- now left.
      * right. exists m'. auto.
    + rewrite step_failing by assumption.
      destruct (IH acc) as [H|(m' & Hin & G' & H)].
      * now left.
      * right. exists m'. auto.
Qed.

(** A layer failing its gate does not take part in the computation. *)
Lemma max_min_width_skip (l1 l2 : list LayerSpec) (m : LayerSpec) :
  gate ps m = false ->
  max_min_width ps (l1 ++ m :: l2) = max_min_width ps (l1 ++ l2).
Proof.
  intros G. unfold max_min_width. rewrite !fold_left_app. simpl.
  now rewrite step_failing.
Qed.

Lemma max_min_width_filter (metals : list LayerSpec) :
  max_min_width ps metals = max_min_width ps (filter (gate ps) metals).
Proof.
  unfold max_min_width. generalize 0.
  induction metals as [|m rest IH]; intros acc; simpl; [reflexivity|].
  destruct (gate ps m) eqn:G; simpl.
  - apply IH.
  - rewrite step_failing by assumption. apply IH.
Qed.

(** When no layer passes the gate the width stays at its initial 0.0. *)
Lemma max_min_width_none (metals : list LayerSpec) :
  (forall m, In m metals -> gate ps m = false) ->
  max_min_width ps metals = 0.
Proof.
  intros H. rewrite max_min_width_filter.
  replace (filter (gate ps) metals) with (@nil LayerSpec); [reflexivity|].
  symmetry. induction metals as [|m rest IH]; simpl; [reflexivity|].
  rewrite (H m) by now left. apply IH. intros m' Hm'. apply H. now right.
Qed.
End MaxMinWidth.

Lemma corner_fill_emits (ps mmw cx cy : Q) (metals : list LayerSpec) :
  corner_fill ps mmw cx cy metals
  = (map (corner_rect cx cy mmw) (filter (corner_gate ps mmw) metals), Ok tt).
Proof.
  unfold corner_fill.
  rewrite (for_each_enumerate
             (fun spec => if corner_gate ps mmw spec
                          then add (corner_rect cx cy mmw spec) else ret tt)).
  apply for_each_guarded.
Qed.

Lemma corner_rect_side (cx cy mmw : Q) (spec : LayerSpec) :
  rx1 (corner_rect cx cy mmw spec) - rx0 (corner_rect cx cy mmw spec) == mmw /\
  ry1 (corner_rect cx cy mmw spec) - ry0 (corner_rect cx cy mmw spec) == mmw.
Proof. unfold corner_rect; simpl. split; field. Qed.

Lemma window_fill_emits (g : PixelGrid) (ps mmw : Q) (metals : list LayerSpec)
    (y x : Z) :
  window_fill g ps mmw metals y x
  = if diagonal g y x
    then (map (corner_rect (corner_x ps x) (corner_y g ps y) mmw)
              (filter (corner_gate ps mmw) metals), Ok tt)
    else ret tt.
Proof.
  unfold window_fill, diagonal, corner_x, corner_y.
  destruct (pattern1 _ _ _ _); simpl; [apply corner_fill_emits|].
  destruct (pattern2 _ _ _ _); [apply corner_fill_emits|reflexivity].
Qed.

Lemma pattern_iff (b00 b01 b10 b11 : Z) :
  pattern1 b00 b01 b10 b11 || pattern2 b00 b01 b10 b11 = true <->
  exactly_one_diagonal b00 b01 b10 b11.
Proof.
  unfold pattern1, pattern2, exactly_one_diagonal.
  rewrite orb_true_iff, !andb_true_iff, !negb_true_iff, !Z.eqb_eq, !Z.eqb_neq.
  tauto.
Qed.

Lemma diagonal_iff (g : PixelGrid) (y x : Z) :
  diagonal g y x = true <->
  exactly_one_diagonal (pixel_at g y x) (pixel_at g y (x + 1))
                       (pixel_at g (y + 1) x) (pixel_at g (y + 1) (x + 1)).
Proof. apply pattern_iff. Qed.

(** Pass A never raises: it adds the rectangles of its windows, row by row. *)
Lemma pass_A_emits (g : PixelGrid) (c : Constraints) (ps : Q) :
  pass_A g c ps
  = (flat_map (fun y => flat_map (fun x => window_rects g c ps y x)
                                 (range (width g - 1)))
              (range (height g - 1)), Ok tt).
Proof.
  unfold pass_A, window_rects.
  assert (Hin : forall y,
    for_each (range (width g - 1))
      (fun x => window_fill g ps (max_min_width ps (metal_layers c))
                            (metal_layers c) y x)
    = (flat_map (fun x => emitted (window_fill g ps
                   (max_min_width ps (metal_layers c)) (metal_layers c) y x))
                (range (width g - 1)), Ok tt)).
  { intros y. apply for_each_ok. intros x _.
    rewrite window_fill_emits. now destruct (diagonal g y x). }
  rewrite for_each_ok.
  - f_equal. apply flat_map_ext. intros y. now rewrite Hin.
  - intros y _. now rewrite Hin.
Qed.

(** Every rectangle of Pass A is the corner square of a window showing a
    diagonal pattern, on a metal layer passing the corner gate. *)
Lemma pass_A_rects (g : PixelGrid) (c : Constraints) (ps : Q) (r : Rectangle) :
  In r (emitted (pass_A g c ps)) ->
  exists y x m,
    (0 <= y < height g - 1)%Z /\ (0 <= x < width g - 1)%Z
    /\ diagonal g y x = true /\ In m (metal_layers c)
    /\ corner_gate ps (max_min_width ps (metal_layers c)) m = true
    /\ r = corner_rect (corner_x ps x) (corner_y g ps y)
                       (max_min_width ps (metal_layers c)) m.
Proof.
  rewrite pass_A_emits. simpl. rewrite in_flat_map.
  intros (y & Hy & Hr). rewrite in_flat_map in Hr.
  destruct Hr as (x & Hx & Hr).
  unfold window_rects in Hr. rewrite window_fill_emits in Hr.
  destruct (diagonal g y x) eqn:D; [|contradiction].
  simpl in Hr. apply in_map_iff in Hr. destruct Hr as (m & <- & Hm).
  apply filter_In in Hm. destruct Hm as [Hin G].
  exists y, x, m. apply in_range in Hy. apply in_range in Hx.
  repeat split; try assumption; lia.
Qed.




(** ** Pass A: when a window is filled *)


Lemma uniform_not_diagonal (b00 b01 b10 b11 : Z) :
  uniform b00 b01 b10 b11 -> ~ exactly_one_diagonal b00 b01 b10 b11.
Proof.
  unfold uniform, exactly_one_diagonal. intros [H|H] [D|D]; lia.
Qed.



(** ** Pass A: no layer passes the gate *)




Lemma flat_map_ext_in {A B : Type} (f h : A -> list B) (xs : list A) :
  (forall a, In a xs -> f a = h a) -> flat_map f xs = flat_map h xs.
Proof.
  induction xs as [|a rest IH]; simpl; intros H; [reflexivity|].
  rewrite (H a) by now left. f_equal. apply IH. intros b Hb. apply H. now right.
Qed.

(** ** Pass B: the via array *)

Lemma filter_all {A : Type} (p : A -> bool) (xs : list A) :
  (forall a, In a xs -> p a = true) -> filter p xs = xs.
Proof.
  induction xs as [|a rest IH]; simpl; intros H; [reflexivity|].
  rewrite (H a) by now left. f_equal. apply IH. intros b Hb. apply H. now right.
Qed.

Lemma length_filter_le {A : Type} (p : A -> bool) (xs : list A) :
  (List.length (filter p xs) <= List.length xs)%nat.
Proof.
  induction xs as [|a rest IH]; simpl; [lia|]. destruct (p a); simpl; lia.
Qed.

Lemma length_flat_map_const {A B : Type} (f : A -> list B) (n : nat) (xs : list A) :
  (forall a, In a xs -> List.length (f a) = n) ->
  List.length (flat_map f xs) = (List.length xs * n)%nat.
Proof.
  induction xs as [|a rest IH]; simpl; intros H; [reflexivity|].
  rewrite length_app, (H a) by now left.
  rewrite IH by (intros b Hb; apply H; now right). reflexivity.
Qed.

Lemma length_flat_map_le {A B : Type} (f : A -> list B) (n : nat) (xs : list A) :
  (forall a, In a xs -> (List.length (f a) <= n)%nat) ->
  (List.length (flat_map f xs) <= List.length xs * n)%nat.
Proof.
  induction xs as [|a rest IH]; simpl; intros H; [lia|].
  rewrite length_app.
  assert (H1 := H a (or_introl eq_refl)).
  assert (H2 : (List.length (flat_map f rest) <= List.length rest * n)%nat)
    by (apply IH; intros b Hb; apply H; now right).
  lia.
Qed.

(** ** The run as a whole *)

Lemma pass_D_emits (g : PixelGrid) (c : Constraints) (ps : Q) :
  pass_D g c ps
  = (map (excl_rect g ps) (filter (gate ps) (DMxEXCL_layer_info c)), Ok tt).
Proof. apply for_each_guarded. Qed.

Lemma pass_A_returns (g : PixelGrid) (c : Constraints) (ps : Q) :
  outcome (pass_A g c ps) = Ok tt.
Proof. now rewrite pass_A_emits. Qed.

(** Once Pass B has returned, the cell holds the four passes in order. *)
Lemma synthesize_ok (g : PixelGrid) (c : Constraints) (ps : Q) :
  outcome (pass_B g c ps) = Ok tt ->
  synthesize g c ps
  = (emitted (pass_A g c ps) ++ emitted (pass_B g c ps)
     ++ logo_rect g c ps :: emitted (pass_D g c ps), Ok tt).
Proof.
  intros HB. unfold synthesize.
  rewrite (bind_ok (pass_A g c ps)) by apply pass_A_returns.
  rewrite (bind_ok (pass_B g c ps)) by exact HB.
  rewrite pass_D_emits. reflexivity.
Qed.

(** ** Pass C: the logo outline *)

Lemma no_foreground_not_diagonal (g : PixelGrid) (y x : Z) :
  no_foreground g -> diagonal g y x = false.
Proof.
  intros H. unfold diagonal, pattern1, pattern2.
  pose proof (H y x) as H00. pose proof (H y (x + 1)%Z) as H01.
  apply Z.eqb_neq in H00. apply Z.eqb_neq in H01.
  now rewrite H00, H01.
Qed.

Lemma no_foreground_passes (g : PixelGrid) (c : Constraints) (ps : Q) :
  no_foreground g -> pass_A g c ps = ret tt /\ pass_B g c ps = ret tt.
Proof.
  intros H. split.
  - unfold pass_A. apply for_each_skip. intros y _.
    apply for_each_skip. intros x _.
    rewrite window_fill_emits. now rewrite no_foreground_not_diagonal.
  - unfold pass_B. apply for_each_skip. intros y _.
    apply for_each_skip. intros x _.
    unfold pixel_fill. pose proof (H y x) as Hp.
    apply Z.eqb_neq in Hp. now rewrite Hp.
Qed.



(** ** The SIZE line of the macro descriptor *)

Lemma Qlt_bool_comp (a b a' b' : Q) :
  a == a' -> b == b' -> Qlt_bool a b = Qlt_bool a' b'.
Proof. intros Ha Hb. unfold Qlt_bool. now rewrite Ha, Hb. Qed.

Lemma round_half_even_comp (x y : Q) :
  x == y -> round_half_even x = round_half_even y.
Proof.
  intros H. unfold round_half_even.
  assert (Hf : Qfloor x = Qfloor y) by now rewrite H.
  rewrite Hf.
  assert (Hd : x - inject_Z (Qfloor y) == y - inject_Z (Qfloor y))
    by now rewrite H.
  rewrite (Qlt_bool_comp _ (1 # 2) _ (1 # 2) Hd (Qeq_refl _)).
  rewrite (Qlt_bool_comp (1 # 2) _ (1 # 2) _ (Qeq_refl _) Hd).
  reflexivity.
Qed.

(** The printed integer is within one half of the value. *)
Lemma round_half_even_close (x : Q) :
  x - (1 # 2) <= inject_Z (round_half_even x) /\
  inject_Z (round_half_even x) <= x + (1 # 2).
Proof.
  unfold round_half_even.
  pose proof (Qfloor_le x) as Hlo. pose proof (Qlt_floor x) as Hhi.
  rewrite inject_Z_plus in Hhi. change (inject_Z 1) with 1 in Hhi.
  destruct (Qlt_bool (x - inject_Z (Qfloor x)) (1 # 2)) eqn:E1.
  - apply Qlt_bool_iff in E1. split; lra.
  - apply Qlt_bool_false_iff in E1.
    assert (Hup : inject_Z (Qfloor x + 1) == inject_Z (Qfloor x) + 1)
      by (rewrite inject_Z_plus; reflexivity).
    destruct (Qlt_bool (1 # 2) (x - inject_Z (Qfloor x))) eqn:E2.
    + rewrite Hup. split; lra.
    + apply Qlt_bool_false_iff in E2.
      destruct (Z.even (Qfloor x)); [|rewrite Hup]; split; lra.
Qed.

Lemma format_0f_comp (x y : Q) : x == y -> format_0f x = format_0f y.
Proof.
  intros H. unfold format_0f.
  rewrite (round_half_even_comp x y H).
  now rewrite (Qlt_bool_comp x 0 y 0 H (Qeq_refl _)).
Qed.

(** In the exact model the multiplication by 1000 and the division by
    1000 of lines 225-226 and 243 cancel. *)
Lemma size_default_units (g : PixelGrid) (ps units : Q) :
  units == 1000 ->
  size_x g ps units == inject_Z (width g) * ps /\
  size_y g ps units == inject_Z (height g) * ps.
Proof.
  intros H. unfold size_x, size_y, width_lef, height_lef.
  rewrite H. split; field.
Qed.

(** ** The scenarios of the specification *)

(** The 2x2 all-foreground grid, pixel size 1.0, one metal layer with
    min_width 0.5 and min_area 0.1: no corner square, four fill rectangles
    and the outline (0,0)-(2,2). *)
Example scenario_all_foreground :
  emitted (pass_A all_foreground (only_metal metal_half) 1) = []
  /\ List.length (emitted (pass_B all_foreground (only_metal metal_half) 1)) = 4%nat
  /\ emitted (pass_C all_foreground (only_metal metal_half) 1)
     = [mkRect 0 0 (inject_Z 2 * 1) (inject_Z 2 * 1) 100 0].
Proof. repeat split. Qed.

(** The checkerboard under the same constraints: one corner square and
    two fill rectangles. *)
Example scenario_checkerboard :
  List.length (emitted (pass_A checkerboard (only_metal metal_half) 1)) = 1%nat
  /\ List.length (emitted (pass_B checkerboard (only_metal metal_half) 1)) = 2%nat.
Proof. repeat split. Qed.

(** A metal layer with min_width 2.0 at pixel size 1.0 receives nothing
    from Pass B and leaves the corner width at 0.0. *)
Example scenario_gate_fails :
  gate 1 metal_wide = false
  /\ emitted (pass_B checkerboard (only_metal metal_wide) 1) = []
  /\ max_min_width 1 [metal_wide; metal_half] = max_min_width 1 [metal_half].
Proof. repeat split. Qed.

(** * Further properties *)

(** ** Outcomes and enumeration *)

Lemma outcome_cases (m : Gen unit) :
  outcome m = Ok tt \/ exists e, outcome m = Raise e.
Proof. destruct m as [l [[]|e]]; [now left | right; now exists e]. Qed.

Lemma in_enumerate {A : Type} (xs : list A) (k : nat) (a : A) :
  In (k, a) (enumerate xs) <-> nth_error xs k = Some a.
Proof.
  unfold enumerate. rewrite in_enumerate_from, Nat.sub_0_r.
  split; [now intros [_ H] | intros H; split; [lia|exact H]].
Qed.

Lemma outcome_bind_raise (m : Gen unit) (k : Gen unit) (e : exn) :
  outcome m = Raise e -> outcome (bind m (fun _ => k)) = Raise e.
Proof. unfold bind, outcome. now intros ->. Qed.

Lemma outcome_bind_ok (m : Gen unit) (k : Gen unit) :
  outcome m = Ok tt -> outcome (bind m (fun _ => k)) = outcome k.
Proof. intros H. now rewrite bind_ok. Qed.

Lemma length_flat_map_scaled {A B C : Type} (f : A -> list B) (h : A -> list C)
    (k : nat) (xs : list A) :
  (forall a, In a xs -> List.length (f a) = (List.length (h a) * k)%nat) ->
  List.length (flat_map f xs) = (List.length (flat_map h xs) * k)%nat.
Proof.
  induction xs as [|a rest IH]; simpl; intros H; [reflexivity|].
  rewrite !length_app, (H a) by now left.
  rewrite IH by (intros b Hb; apply H; now right). lia.
Qed.

(** ** The corner gate and the pixel size *)



Lemma square_le (a b : Q) : 0 <= a -> a <= b -> a * a <= b * b.
Proof.
  intros Ha Hab.
  apply Qle_trans with (b * a).
  - now apply Qmult_le_compat_r.
  - rewrite (Qmult_comm b a).
    apply Qmult_le_compat_r; [assumption|]. now apply Qle_trans with a.
Qed.



(** ** Binarisation *)

Lemma nth_map_default {A B : Type} (f : A -> B) (l : list A) (n : nat) (d : B) :
  nth n (map f l) d = match nth_error l n with Some a => f a | None => d end.
Proof.
  revert n. induction l as [|a rest IH]; intros [|n]; simpl; try reflexivity.
  apply IH.
Qed.

Lemma pixel_at_threshold (image : GrayImage) (threshold y x : Z) :
  pixel_at (threshold_image image threshold) y x
  = match nth_error (gray image) (Z.to_nat y) with
    | Some row => match nth_error row (Z.to_nat x) with
                  | Some p => binarize threshold p
                  | None => 1%Z
                  end
    | None => 1%Z
    end.
Proof.
  unfold pixel_at, threshold_image. simpl.
  rewrite (nth_map_default (map (binarize threshold))).
  destruct (nth_error (gray image) (Z.to_nat y)) as [row|].
  - apply nth_map_default.
  - now destruct (Z.to_nat x).
Qed.

Lemma binarize_foreground (threshold p : Z) :
  binarize threshold p = 0%Z <-> (p < threshold)%Z.
Proof.
  unfold binarize. destruct (p <? threshold)%Z eqn:E.
  - apply Z.ltb_lt in E. tauto.
  - apply Z.ltb_ge in E. split; [discriminate | lia].
Qed.

(** A pixel of the thresholded image is foreground exactly when its gray
    level is below the threshold; so raising the threshold keeps every
    foreground pixel, and the size of the image is kept. *)
Theorem threshold_image_foreground (image : GrayImage) (threshold : Z) :
  (forall y x row p,
     nth_error (gray image) (Z.to_nat y) = Some row ->
     nth_error row (Z.to_nat x) = Some p ->
     (pixel_at (threshold_image image threshold) y x = 0%Z <-> (p < threshold)%Z))
  /\ (forall threshold' y x, (threshold <= threshold')%Z ->
        pixel_at (threshold_image image threshold) y x = 0%Z ->
        pixel_at (threshold_image image threshold') y x = 0%Z)
  /\ width (threshold_image image threshold) = gray_width image
  /\ height (threshold_image image threshold) = gray_height image
  /\ (wf_gray image -> wf_grid (threshold_image image threshold)).
Proof.
  split; [|split; [|split; [|split]]]; try reflexivity.
  - intros y x row p Hrow Hp. rewrite pixel_at_threshold, Hrow, Hp.
    apply binarize_foreground.
  - intros t' y x Ht. rewrite !pixel_at_threshold.
    destruct (nth_error (gray image) (Z.to_nat y)) as [row|]; [|discriminate].
    destruct (nth_error row (Z.to_nat x)) as [p|]; [|discriminate].
    rewrite !binarize_foreground. lia.
  - intros (Hw & Hh & Hlen & Hrows). unfold wf_grid, threshold_image. simpl.
    repeat split; try assumption.
    + now rewrite length_map.
    + apply Forall_map. eapply Forall_impl; [|exact Hrows].
      intros row Hrow. simpl. now rewrite length_map.
Qed.

Lemma threshold_image_foreground_witness :
  pixel_at (threshold_image gray_sample 128) 0 0 = 0%Z
  /\ pixel_at (threshold_image gray_sample 200) 0 0 = 0%Z.
Proof.
  assert (H0 : pixel_at (threshold_image gray_sample 128) 0 0 = 0%Z).
  { apply (proj1 (threshold_image_foreground gray_sample 128) 0%Z 0%Z
             [10; 200]%Z 10%Z eq_refl eq_refl).
    reflexivity. }
  split; [exact H0|].
  apply (proj1 (proj2 (threshold_image_foreground gray_sample 128)) 200%Z 0%Z 0%Z).
  - vm_compute. discriminate.
  - exact H0.
Defined.

Lemma gray_in_range (image : GrayImage) (y x : Z) :
  wf_gray image -> (0 <= y < gray_height image)%Z -> (0 <= x < gray_width image)%Z ->
  exists row p, nth_error (gray image) (Z.to_nat y) = Some row /\
                nth_error row (Z.to_nat x) = Some p.
Proof.
  intros (Hw & Hh & Hlen & Hrows) Hy Hx.
  destruct (nth_error (gray image) (Z.to_nat y)) as [row|] eqn:E.
  2:{ apply nth_error_None in E. lia. }
  rewrite Forall_forall in Hrows.
  assert (Hrow : Z.of_nat (List.length row) = gray_width image)
    by (apply Hrows; eapply nth_error_In; eauto).
  destruct (nth_error row (Z.to_nat x)) as [p|] eqn:E'.
  2:{ apply nth_error_None in E'. lia. }
  now exists row, p.
Qed.

Lemma gray_level_at (image : GrayImage) (ny nx : nat) (row : list Z) (p : Z) :
  gray_levels image ->
  nth_error (gray image) ny = Some row -> nth_error row nx = Some p ->
  (0 <= p <= 255)%Z.
Proof.
  intros H Hrow Hp. unfold gray_levels in H. rewrite Forall_forall in H.
  specialize (H row (nth_error_In _ _ Hrow)). rewrite Forall_forall in H.
  exact (H p (nth_error_In _ _ Hp)).
Qed.



(** ** The orchestrator *)

Lemma run_ok_cell (g : PixelGrid) (c : Constraints) (ps : Q) (cell : list Rectangle) :
  bitmap_to_stacked_logo g c ps = Ok cell ->
  cell = emitted (pass_A g c ps) ++ emitted (pass_B g c ps)
         ++ logo_rect g c ps :: emitted (pass_D g c ps).
Proof.
  intros H. destruct (outcome_cases (pass_B g c ps)) as [HB|[e HB]].
  - unfold bitmap_to_stacked_logo in H.
    rewrite (synthesize_ok g c ps HB) in H. simpl in H. congruence.
  - unfold bitmap_to_stacked_logo, synthesize in H.
    rewrite outcome_bind_ok in H by apply pass_A_returns.
    rewrite (outcome_bind_raise _ _ e HB) in H. discriminate.
Qed.



(** ** How many squares Pass A adds *)


(** ** The via layers that are read *)

Lemma for_each_ext {A : Type} (body body' : A -> Gen unit) (xs : list A) :
  (forall a, In a xs -> body a = body' a) ->
  for_each xs body = for_each xs body'.
Proof.
  induction xs as [|a rest IH]; simpl; intros H; [reflexivity|].
  rewrite (H a) by now left.
  rewrite IH by (intros b Hb; apply H; now right). reflexivity.
Qed.

(** Only the via layers at ordinals below the number of metal layers are
    read: replacing the via layers by others that agree with them at these
    ordinals changes neither the cell nor the outcome of the run. *)
Theorem vias_beyond_metals_unused (g : PixelGrid) (c : Constraints) (ps : Q)
    (vias : list ViaSpec) :
  (forall i, (i < List.length (metal_layers c))%nat ->
             nth_error vias i = nth_error (via_layers c) i) ->
  synthesize g (with_vias c vias) ps = synthesize g c ps
  /\ bitmap_to_stacked_logo g (with_vias c vias) ps
     = bitmap_to_stacked_logo g c ps.
Proof.
  intros H.
  assert (HB : pass_B g (with_vias c vias) ps = pass_B g c ps).
  { unfold pass_B. simpl.
    apply for_each_ext. intros y _. apply for_each_ext. intros x _.
    unfold pixel_fill. destruct (pixel_at g y x =? 0)%Z; [|reflexivity].
    destruct (pixel_box g ps y x) as [[[px0 py0] px1] py1]. simpl.
    apply for_each_ext. intros [i m] Him. apply in_enumerate in Him.
    unfold pixel_layer, via_stack. simpl.
    rewrite H; [reflexivity|].
    apply nth_error_Some. congruence. }
  assert (HS : synthesize g (with_vias c vias) ps = synthesize g c ps).
  { unfold synthesize. rewrite HB. reflexivity. }
  split; [exact HS|].
  unfold bitmap_to_stacked_logo. now rewrite HS.
Qed.

Lemma vias_beyond_metals_unused_witness :
  bitmap_to_stacked_logo single_pixel
    (with_vias (mkConstraints [metal_half] [via_default; via_flat] None [])
               [via_default]) 1
  = bitmap_to_stacked_logo single_pixel
      (mkConstraints [metal_half] [via_default; via_flat] None []) 1.
Proof.
  assert (H : forall i,
    (i < List.length (metal_layers
           (mkConstraints [metal_half] [via_default; via_flat] None [])))%nat ->
    nth_error [via_default] i
    = nth_error (via_layers
        (mkConstraints [metal_half] [via_default; via_flat] None [])) i).
  { intros [|i] Hi; [reflexivity|]. simpl in Hi. lia. }
  exact (proj2 (vias_beyond_metals_unused single_pixel
                  (mkConstraints [metal_half] [via_default; via_flat] None [])
                  1 [via_default] H)).
Defined.

(** ** The layer names *)

Lemma insert_sorted_perm (a : Z * string) (l : list (Z * string)) :
  Permutation (insert_sorted a l) (a :: l).
Proof.
  induction l as [|b rest IH]; simpl; [reflexivity|].
  destruct (fst a <=? fst b)%Z; [reflexivity|].
  rewrite IH. apply perm_swap.
Qed.

Lemma sort_pairs_perm (l : list (Z * string)) : Permutation (sort_pairs l) l.
Proof.
  induction l as [|a rest IH]; simpl; [reflexivity|].
  rewrite insert_sorted_perm. now constructor.
Qed.

Lemma insert_sorted_sorted (a : Z * string) (l : list (Z * string)) :
  StronglySorted (fun p q => (fst p <= fst q)%Z) l ->
  StronglySorted (fun p q => (fst p <= fst q)%Z) (insert_sorted a l).
Proof.
  induction l as [|b rest IH]; simpl; intros H.
  - constructor; constructor.
  - inversion H as [|b' rest' Hrest Hb]; subst.
    destruct (fst a <=? fst b)%Z eqn:E.
    + apply Z.leb_le in E. constructor; [exact H|].
      constructor; [exact E|].
      eapply Forall_impl; [|exact Hb]. intros q Hq. simpl in *. lia.
    + apply Z.leb_gt in E. constructor; [now apply IH|].
      apply (Permutation_Forall (Permutation_sym (insert_sorted_perm a rest))).
      constructor; [lia | exact Hb].
Qed.

Lemma sort_pairs_sorted (l : list (Z * string)) :
  StronglySorted (fun p q => (fst p <= fst q)%Z) (sort_pairs l).
Proof.
  induction l as [|a rest IH]; simpl; [constructor|].
  now apply insert_sorted_sorted.
Qed.

Lemma keyed_some (key : string -> option Z) (ks : list string)
    (l : list (Z * string)) :
  keyed key ks = Some l ->
  map snd l = ks /\ Forall (fun p => key (snd p) = Some (fst p)) l.
Proof.
  revert l. induction ks as [|k rest IH]; simpl; intros l H.
  - inversion H. split; constructor.
  - destruct (key k) as [z|] eqn:Ek; [|discriminate].
    destruct (keyed key rest) as [l'|]; [|discriminate].
    inversion H; subst. destruct (IH l' eq_refl) as [Hm Hf].
    split; [simpl; now rewrite Hm | now constructor].
Qed.

Lemma keyed_none_iff (key : string -> option Z) (ks : list string) :
  keyed key ks = None <-> exists k, In k ks /\ key k = None.
Proof.
  induction ks as [|k rest IH]; simpl.
  - split; [discriminate | now intros (k & [] & _)].
  - destruct (key k) as [z|] eqn:Ek.
    + destruct (keyed key rest) as [l|].
      * split; [discriminate|].
        intros (k' & [<-|Hin] & Hk); [congruence|].
        destruct IH as [_ IH'].
        specialize (IH' (ex_intro _ k' (conj Hin Hk))). discriminate.
      * split; [|reflexivity]. intros _.
        destruct IH as [IH' _]. destruct (IH' eq_refl) as (k' & Hin & Hk).
        exists k'. split; [now right | exact Hk].
    + split; [|reflexivity]. intros _. exists k. split; [now left | exact Ek].
Qed.

Lemma sorted_names (key : string -> option Z) (l : list (Z * string)) :
  Forall (fun p => key (snd p) = Some (fst p)) l ->
  StronglySorted (fun p q => (fst p <= fst q)%Z) l ->
  StronglySorted (key_le key) (map snd l).
Proof.
  induction l as [|p rest IH]; simpl; intros Hk Hs; [constructor|].
  inversion Hk as [|p' rest' Hp Hrest]; subst.
  inversion Hs as [|p' rest' Hs' Hle]; subst.
  constructor; [now apply IH|].
  apply Forall_map. rewrite Forall_forall in *.
  intros q Hq. exists (fst p), (fst q).
  split; [exact Hp|]. split; [now apply Hrest | now apply Hle].
Qed.

Lemma sorted_by_selection (select : string -> bool) (key : string -> option Z)
    (keys : list string) :
  sorted_selection select key keys (sorted_by key (filter select keys)).
Proof.
  unfold sorted_selection, sorted_by.
  destruct (keyed key (filter select keys)) as [l|] eqn:E.
  - split.
    + split; [discriminate|].
      intros (k & Hin & Hs & Hk).
      assert (H : keyed key (filter select keys) = None).
      { apply keyed_none_iff. exists k. split; [|exact Hk].
        apply filter_In. now split. }
      congruence.
    + intros l' Hl. inversion Hl; subst.
      destruct (keyed_some key _ l E) as [Hm Hf].
      split.
      * rewrite <- Hm. apply Permutation_map. apply sort_pairs_perm.
      * apply sorted_names; [|apply sort_pairs_sorted].
        apply (Permutation_Forall (Permutation_sym (sort_pairs_perm l))).
        exact Hf.
  - split; [|discriminate].
    split; [|reflexivity]. intros _.
    apply keyed_none_iff in E. destruct E as (k & Hin & Hk).
    apply filter_In in Hin. destruct Hin as [Hin Hs]. now exists k.
Qed.

(** The metal, via and exclusion names of lines 42-54, whatever Python's
    [int] and [isdigit] do: each selection fails exactly when one of the
    names it selects has no number, and otherwise it returns the selected
    names, each as often as it occurs, in ascending order of their numbers
    (not of their spelling). *)
Theorem layer_names_sorted (int_of : string -> option Z)
    (isdigit : string -> bool) (keys : list string) :
  sorted_selection is_metal (metal_number int_of) keys
                   (metal_layer_keys int_of keys)
  /\ sorted_selection is_via (via_number int_of) keys
                      (via_layer_keys int_of keys)
  /\ sorted_selection (is_DMxEXCL isdigit) (DMxEXCL_number int_of) keys
                      (DMxEXCL_layer_keys int_of isdigit keys).
Proof.
  split; [|split]; apply sorted_by_selection.
Qed.

Lemma layer_names_sorted_witness :
  Permutation ["metal1"; "metal2"; "metal10"]%string
              (filter is_metal ["via1"; "metal2"; "metal10"; "logo"; "metal1"]%string).
Proof.
  apply (proj2 (proj1 (layer_names_sorted int_of_digits (fun _ => true)
                         ["via1"; "metal2"; "metal10"; "logo"; "metal1"]%string))
           ["metal1"; "metal2"; "metal10"]%string).
  reflexivity.
Defined.

(** A name that starts with the metal prefix and has no number, such as
    the name made of the prefix alone when [int] rejects the empty string,
    makes the selection of the metal layers fail. *)
Example metal_name_without_number :
  metal_layer_keys int_of_digits ["metal1"; "metal"; "via1"]%string = None
  /\ metal_layer_keys int_of_digits ["metal1"; "metal2"; "via1"]%string
     = Some ["metal1"; "metal2"]%string.
Proof. split; reflexivity. Qed.

(** * Properties of the evaluation in binary64 *)

(** ** Loops on the cell *)

Lemma bind64_ok {A : Type} (m : Gen64 unit) (k : Gen64 A) :
  outcome64 m = Ok tt ->
  bind64 m (fun _ => k) = (emitted64 m ++ emitted64 k, outcome64 k).
Proof.
  unfold bind64, outcome64, emitted64. intros ->. reflexivity.
Qed.

Lemma bind64_raise {A B : Type} (m : Gen64 A) (k : A -> Gen64 B) (e : exn) :
  outcome64 m = Raise e -> bind64 m k = (emitted64 m, Raise e).
Proof.
  unfold bind64, outcome64, emitted64. intros ->. reflexivity.
Qed.

Lemma bind64_eval {A B : Type} (a : A) (k : A -> Gen64 B) :
  bind64 (eval64 (Ok a)) k = k a.
Proof. unfold bind64, eval64. simpl. now destruct (k a). Qed.

Lemma bind64_eval_raise {A B : Type} (e : exn) (k : A -> Gen64 B) :
  bind64 (eval64 (Raise e)) k = ([], Raise e).
Proof. reflexivity. Qed.

(** A loop whose iterations all return adds their rectangles in order. *)
Lemma for_each64_ok {A : Type} (body : A -> Gen64 unit) (xs : list A) :
  (forall a, In a xs -> outcome64 (body a) = Ok tt) ->
  for_each64 xs body = (flat_map (fun a => emitted64 (body a)) xs, Ok tt).
Proof.
  induction xs as [|a rest IH]; intros Hok; simpl.
  - reflexivity.
  - rewrite bind64_ok by (apply Hok; now left).
    rewrite IH by (intros b Hb; apply Hok; now right).
    reflexivity.
Qed.

(** A loop that returns: every iteration returned. *)
Lemma for_each64_outcome_ok {A : Type} (body : A -> Gen64 unit) (xs : list A) :
  outcome64 (for_each64 xs body) = Ok tt ->
  forall a, In a xs -> outcome64 (body a) = Ok tt.
Proof.
  induction xs as [|a rest IH]; simpl; intros H b Hb; [contradiction|].
  unfold bind64, outcome64 in H.
  destruct (snd (body a)) as [[]|e] eqn:E; simpl in H; [|discriminate].
  destruct Hb as [<-|Hb]; [exact E|].
  apply IH; assumption.
Qed.

(** A loop that raises: one of its iterations raised that exception. *)
Lemma for_each64_raises {A : Type} (body : A -> Gen64 unit) (xs : list A)
    (e : exn) :
  outcome64 (for_each64 xs body) = Raise e ->
  exists a, In a xs /\ outcome64 (body a) = Raise e.
Proof.
  induction xs as [|a rest IH]; simpl; intros H; [discriminate|].
  unfold bind64, outcome64 in H.
  destruct (snd (body a)) as [[]|e'] eqn:E; simpl in H.
  - destruct (IH H) as (b & Hb & Hr). exists b. split; [now right|exact Hr].
  - exists a. split; [now left|]. unfold outcome64. congruence.
Qed.

(** What a loop added comes from its iterations, also when it raised. *)
Lemma in_emitted64_for_each {A : Type} (body : A -> Gen64 unit) (xs : list A)
    (r : Rectangle64) :
  In r (emitted64 (for_each64 xs body)) ->
  exists a, In a xs /\ In r (emitted64 (body a)).
Proof.
  induction xs as [|a rest IH]; simpl; [contradiction|].
  unfold bind64, emitted64.
  destruct (snd (body a)) as [[]|e]; simpl; intros H.
  - apply in_app_or in H. destruct H as [H|H].
    + exists a. split; [now left | exact H].
    + destruct (IH H) as (b & Hb & Hr). exists b. split; [now right | exact Hr].
  - exists a. split; [now left | exact H].
Qed.

Lemma emitted64_for_each_ok {A : Type} (body : A -> Gen64 unit) (xs : list A) :
  outcome64 (for_each64 xs body) = Ok tt ->
  emitted64 (for_each64 xs body) = flat_map (fun a => emitted64 (body a)) xs.
Proof.
  intros H. rewrite for_each64_ok; [reflexivity|].
  now apply for_each64_outcome_ok.
Qed.

(** A loop that adds the rectangle of an element when it passes a guard. *)
Lemma for_each64_guarded {A : Type} (p : Rectangle64 -> bool)
    (r : A -> Rectangle64) (xs : list A) :
  for_each64 xs (fun a => if p (r a) then add64 (r a) else ret64 tt)
  = (filter p (map r xs), Ok tt).
Proof.
  rewrite for_each64_ok.
  - f_equal. induction xs as [|a rest IH]; simpl; [reflexivity|].
    destruct (p (r a)); simpl; now rewrite IH.
  - intros a _. now destruct (p (r a)).
Qed.

Lemma enumerate_from_combine {A : Type} (xs : list A) (i : nat) :
  enumerate_from i xs = combine (seq i (List.length xs)) xs.
Proof.
  revert i. induction xs as [|a rest IH]; intros i; simpl; [reflexivity|].
  now rewrite IH.
Qed.

Lemma enumerate_combine {A : Type} (xs : list A) :
  enumerate xs = combine (seq 0 (List.length xs)) xs.
Proof. apply enumerate_from_combine. Qed.

(** ** The gate in binary64 *)

Lemma gate64_cases (pow2 : float -> result float) (ps : float)
    (spec : LayerSpec64) :
  (gate64 pow2 ps spec = Ok true <->
     (ps <? get (min_width64 spec) 0)%float = false /\
     exists sq, pow2 ps = Ok sq /\ (sq <? get (min_area64 spec) 0)%float = false)
  /\ (gate64 pow2 ps spec = Ok false <->
        (ps <? get (min_width64 spec) 0)%float = true \/
        exists sq, pow2 ps = Ok sq /\ (sq <? get (min_area64 spec) 0)%float = true)
  /\ (forall e, gate64 pow2 ps spec = Raise e <->
        (ps <? get (min_width64 spec) 0)%float = false /\ pow2 ps = Raise e).
Proof.
  unfold gate64.
  destruct (ps <? get (min_width64 spec) 0)%float.
  - split; [|split].
    + split; [discriminate|]. now intros [H _].
    + split; [now left|reflexivity].
    + intros e. split; [discriminate|]. now intros [H _].
  - destruct (pow2 ps) as [sq|e0].
    + destruct (sq <? get (min_area64 spec) 0)%float eqn:E; simpl.
      * split; [|split].
        -- split; [discriminate|]. intros [_ (sq' & Hs & Hf)].
           inversion Hs; subst. congruence.
        -- split; [|reflexivity]. intros _. right. now exists sq.
        -- intros e. split; [discriminate|]. now intros [_ H].
      * split; [|split].
        -- split; [|reflexivity]. intros _. split; [reflexivity|]. now exists sq.
        -- split; [discriminate|]. intros [H|(sq' & Hs & Hf)]; [discriminate|].
           inversion Hs; subst. congruence.
        -- intros e. split; [discriminate|]. now intros [_ H].
    + split; [|split].
      * split; [discriminate|]. now intros [_ (sq & Hs & _)].
      * split; [discriminate|]. intros [H|(sq & Hs & _)]; discriminate.
      * intros e. split; [intros H; inversion H; now split|].
        intros [_ H]. congruence.
Qed.

(** ** Pass B in binary64: the via array *)

(** With both counts evaluated the array is the grid of the cells that
    pass the guard of line 149, and nothing is raised. *)
Lemma via_array64_emits (ps px0 py0 px1 py1 : float) (v : ViaSpec64)
    (nx ny : Z) :
  floordiv64 ps (pitch_x64 v) = Ok nx ->
  floordiv64 ps (pitch_y64 v) = Ok ny ->
  via_array64 ps px0 py0 px1 py1 v
  = (via_cells64 ps px0 py0 px1 py1 v nx ny, Ok tt).
Proof.
  intros Hx Hy. unfold via_array64.
  unfold pitch_x64, via_s64, via_w64 in Hx.
  unfold pitch_y64, via_s64, via_h64, via_w64 in Hy.
  rewrite Hx, bind64_eval, Hy, bind64_eval.
  rewrite for_each64_ok.
  - f_equal. unfold via_cells64. apply flat_map_ext. intros i.
    unfold via_cell64.
    rewrite (for_each64_guarded (via_fits64 px1 py1)
               (via_at64 ps px0 py0 v nx ny i)).
    reflexivity.
  - intros i _. unfold via_cell64.
    rewrite (for_each64_guarded (via_fits64 px1 py1)
               (via_at64 ps px0 py0 v nx ny i)).
    reflexivity.
Qed.

(** A floor division that raises ends the array before any via. *)
Lemma via_array64_raises_x (ps px0 py0 px1 py1 : float) (v : ViaSpec64)
    (e : exn) :
  floordiv64 ps (pitch_x64 v) = Raise e ->
  via_array64 ps px0 py0 px1 py1 v = ([], Raise e).
Proof.
  intros Hx. unfold via_array64.
  unfold pitch_x64, via_s64, via_w64 in Hx.
  now rewrite Hx.
Qed.

Lemma via_array64_raises_y (ps px0 py0 px1 py1 : float) (v : ViaSpec64)
    (nx : Z) (e : exn) :
  floordiv64 ps (pitch_x64 v) = Ok nx ->
  floordiv64 ps (pitch_y64 v) = Raise e ->
  via_array64 ps px0 py0 px1 py1 v = ([], Raise e).
Proof.
  intros Hx Hy. unfold via_array64.
  unfold pitch_x64, via_s64, via_w64 in Hx.
  unfold pitch_y64, via_s64, via_h64, via_w64 in Hy.
  now rewrite Hx, bind64_eval, Hy.
Qed.

(** The outcome of the array is that of its two floor divisions. *)
Lemma via_array64_outcome (ps px0 py0 px1 py1 : float) (v : ViaSpec64) :
  outcome64 (via_array64 ps px0 py0 px1 py1 v)
  = match floordiv64 ps (pitch_x64 v), floordiv64 ps (pitch_y64 v) with
    | Ok _, Ok _ => Ok tt
    | Ok _, Raise e => Raise e
    | Raise e, _ => Raise e
    end.
Proof.
  destruct (floordiv64 ps (pitch_x64 v)) as [nx|e] eqn:Hx.
  - destruct (floordiv64 ps (pitch_y64 v)) as [ny|e] eqn:Hy.
    + now rewrite (via_array64_emits _ _ _ _ _ _ nx ny Hx Hy).
    + now rewrite (via_array64_raises_y _ _ _ _ _ _ nx e Hx Hy).
  - now rewrite (via_array64_raises_x _ _ _ _ _ _ e Hx).
Qed.

Lemma in_via_cells64 (ps px0 py0 px1 py1 : float) (v : ViaSpec64)
    (nx ny : Z) (r : Rectangle64) :
  In r (via_cells64 ps px0 py0 px1 py1 v nx ny) <->
  exists i j, (0 <= i < nx)%Z /\ (0 <= j < ny)%Z /\
              r = via_at64 ps px0 py0 v nx ny i j /\
              via_fits64 px1 py1 r = true.
Proof.
  unfold via_cells64. rewrite in_flat_map. split.
  - intros (i & Hi & Hr). apply filter_In in Hr. destruct Hr as [Hr Hf].
    apply in_map_iff in Hr. destruct Hr as (j & <- & Hj).
    apply in_range in Hi. apply in_range in Hj. now exists i, j.
  - intros (i & j & Hi & Hj & -> & Hf). exists i.
    split; [now apply in_range|]. apply filter_In. split; [|exact Hf].
    apply in_map. now apply in_range.
Qed.

Lemma length_via_cells64_le (ps px0 py0 px1 py1 : float) (v : ViaSpec64)
    (nx ny : Z) :
  (List.length (via_cells64 ps px0 py0 px1 py1 v nx ny)
   <= Z.to_nat nx * Z.to_nat ny)%nat.
Proof.
  unfold via_cells64. rewrite <- (length_range nx).
  apply length_flat_map_le. intros i _.
  rewrite <- (length_range ny), <- (length_map (via_at64 ps px0 py0 v nx ny i)).
  apply length_filter_le.
Qed.

Lemma length_via_cells64_full (ps px0 py0 px1 py1 : float) (v : ViaSpec64)
    (nx ny : Z) :
  (forall i j, (0 <= i < nx)%Z -> (0 <= j < ny)%Z ->
     via_fits64 px1 py1 (via_at64 ps px0 py0 v nx ny i j) = true) ->
  List.length (via_cells64 ps px0 py0 px1 py1 v nx ny)
  = (Z.to_nat nx * Z.to_nat ny)%nat.
Proof.
  intros H. unfold via_cells64. rewrite <- (length_range nx).
  apply length_flat_map_const. intros i Hi. apply in_range in Hi.
  rewrite filter_all.
  - now rewrite length_map, length_range.
  - intros r Hr. apply in_map_iff in Hr. destruct Hr as (j & <- & Hj).
    apply in_range in Hj. now apply H.
Qed.

(** Every rectangle of a via array carries the tags of its via layer. *)
Lemma via_array64_tags (ps px0 py0 px1 py1 : float) (v : ViaSpec64)
    (r : Rectangle64) :
  In r (emitted64 (via_array64 ps px0 py0 px1 py1 v)) ->
  flayer r = via_layer64 v /\ fdatatype r = via_datatype64 v.
Proof.
  destruct (floordiv64 ps (pitch_x64 v)) as [nx|e] eqn:Hx.
  - destruct (floordiv64 ps (pitch_y64 v)) as [ny|e] eqn:Hy.
    + rewrite (via_array64_emits _ _ _ _ _ _ nx ny Hx Hy). simpl.
      rewrite in_via_cells64. intros (i & j & _ & _ & -> & _). now split.
    + rewrite (via_array64_raises_y _ _ _ _ _ _ nx e Hx Hy). intros [].
  - rewrite (via_array64_raises_x _ _ _ _ _ _ e Hx). intros [].
Qed.

Lemma via_stack64_tags (ps px0 py0 px1 py1 : float) (vias : list ViaSpec64)
    (i : nat) (r : Rectangle64) :
  In r (emitted64 (via_stack64 ps px0 py0 px1 py1 vias i)) ->
  exists v, nth_error vias i = Some v /\
            flayer r = via_layer64 v /\ fdatatype r = via_datatype64 v.
Proof.
  unfold via_stack64. destruct (nth_error vias i) as [v|]; [|intros []].
  intros H. exists v. split; [reflexivity|]. eapply via_array64_tags; eauto.
Qed.

(** ** Pass B in binary64: the loop body of a metal layer *)

Lemma pixel_layer64_pass (pow2 : float -> result float)
    (ps px0 py0 px1 py1 : float) (vias : list ViaSpec64) (i : nat)
    (spec : LayerSpec64) :
  gate64 pow2 ps spec = Ok true ->
  pixel_layer64 pow2 ps px0 py0 px1 py1 vias (i, spec)
  = (pixel_rect64 px0 py0 px1 py1 spec
     :: emitted64 (via_stack64 ps px0 py0 px1 py1 vias i),
     outcome64 (via_stack64 ps px0 py0 px1 py1 vias i)).
Proof.
  intros G. unfold pixel_layer64. simpl. rewrite G, bind64_eval.
  reflexivity.
Qed.

Lemma pixel_layer64_skip (pow2 : float -> result float)
    (ps px0 py0 px1 py1 : float) (vias : list ViaSpec64) (i : nat)
    (spec : LayerSpec64) :
  gate64 pow2 ps spec = Ok false ->
  pixel_layer64 pow2 ps px0 py0 px1 py1 vias (i, spec) = ret64 tt.
Proof.
  intros G. unfold pixel_layer64. simpl. now rewrite G, bind64_eval.
Qed.

Lemma pixel_layer64_raise (pow2 : float -> result float)
    (ps px0 py0 px1 py1 : float) (vias : list ViaSpec64) (i : nat)
    (spec : LayerSpec64) (e : exn) :
  gate64 pow2 ps spec = Raise e ->
  pixel_layer64 pow2 ps px0 py0 px1 py1 vias (i, spec) = ([], Raise e).
Proof.
  intros G. unfold pixel_layer64. simpl. now rewrite G.
Qed.

Lemma emitted64_pixel_layer_ok (pow2 : float -> result float)
    (ps px0 py0 px1 py1 : float) (vias : list ViaSpec64)
    (im : nat * LayerSpec64) :
  outcome64 (pixel_layer64 pow2 ps px0 py0 px1 py1 vias im) = Ok tt ->
  emitted64 (pixel_layer64 pow2 ps px0 py0 px1 py1 vias im)
  = layer_rects64 pow2 ps px0 py0 px1 py1 vias im.
Proof.
  destruct im as [i spec]. unfold layer_rects64. simpl.
  destruct (gate64 pow2 ps spec) as [[|]|e] eqn:G.
  - now rewrite (pixel_layer64_pass _ _ _ _ _ _ _ _ _ G).
  - now rewrite (pixel_layer64_skip _ _ _ _ _ _ _ _ _ G).
  - now rewrite (pixel_layer64_raise _ _ _ _ _ _ _ _ _ _ G).
Qed.

Lemma emitted64_pixel_fill_ok (pow2 : float -> result float) (g : PixelGrid)
    (c : Constraints64) (ps : float) (y x : Z) :
  outcome64 (pixel_fill64 pow2 g c ps y x) = Ok tt ->
  emitted64 (pixel_fill64 pow2 g c ps y x) = pixel_rects64 pow2 g c ps y x.
Proof.
  unfold pixel_fill64, pixel_rects64, pixel_box64.
  destruct (pixel_at g y x =? 0)%Z; [|reflexivity].
  intros H. rewrite emitted64_for_each_ok by assumption.
  apply flat_map_ext_in. intros im Him.
  apply emitted64_pixel_layer_ok.
  exact (for_each64_outcome_ok _ _ H im Him).
Qed.

(** Pass B, when it returns, added the rectangles of its pixels row by row. *)
Lemma emitted64_pass_B_ok (pow2 : float -> result float) (g : PixelGrid)
    (c : Constraints64) (ps : float) :
  outcome64 (pass_B64 pow2 g c ps) = Ok tt ->
  emitted64 (pass_B64 pow2 g c ps)
  = flat_map (fun y => flat_map (fun x => pixel_rects64 pow2 g c ps y x)
                                (range (width g)))
             (range (height g)).
Proof.
  unfold pass_B64. intros H.
  rewrite emitted64_for_each_ok by assumption.
  apply flat_map_ext_in. intros y Hy.
  pose proof (for_each64_outcome_ok _ _ H y Hy) as Hrow.
  rewrite emitted64_for_each_ok by assumption.
  apply flat_map_ext_in. intros x Hx.
  apply emitted64_pixel_fill_ok.
  exact (for_each64_outcome_ok _ _ Hrow x Hx).
Qed.

(** Where a rectangle of Pass B comes from, also when the pass raised. *)
Lemma pass_B64_rects (pow2 : float -> result float) (g : PixelGrid)
    (c : Constraints64) (ps : float) (r : Rectangle64) :
  In r (emitted64 (pass_B64 pow2 g c ps)) ->
  exists y x i m,
    (0 <= y < height g)%Z /\ (0 <= x < width g)%Z /\ pixel_at g y x = 0%Z
    /\ nth_error (metal_layers64 c) i = Some m
    /\ gate64 pow2 ps m = Ok true
    /\ (r = fill_rect64 g ps y x m
        \/ exists v, nth_error (via_layers64 c) i = Some v /\
             In r (emitted64 (via_array64 ps
                     (float_of_Z x * ps)%float
                     (float_of_Z (height g - 1 - y) * ps)%float
                     (float_of_Z x * ps + ps)%float
                     (float_of_Z (height g - 1 - y) * ps + ps)%float v))).
Proof.
  unfold pass_B64. intros H.
  apply in_emitted64_for_each in H. destruct H as (y & Hy & H).
  apply in_emitted64_for_each in H. destruct H as (x & Hx & H).
  apply in_range in Hy. apply in_range in Hx.
  unfold pixel_fill64, pixel_box64 in H.
  destruct (pixel_at g y x =? 0)%Z eqn:E; [|contradiction].
  apply Z.eqb_eq in E.
  apply in_emitted64_for_each in H. destruct H as ([i m] & Him & H).
  apply in_enumerate in Him.
  destruct (gate64 pow2 ps m) as [[|]|e] eqn:G.
  - rewrite (pixel_layer64_pass _ _ _ _ _ _ _ _ _ G) in H. simpl in H.
    exists y, x, i, m. repeat split; try assumption; try lia.
    destruct H as [<-|H]; [now left|]. right.
    unfold via_stack64 in H.
    destruct (nth_error (via_layers64 c) i) as [v|]; [|contradiction].
    now exists v.
  - rewrite (pixel_layer64_skip _ _ _ _ _ _ _ _ _ G) in H. contradiction.
  - rewrite (pixel_layer64_raise _ _ _ _ _ _ _ _ _ _ G) in H. contradiction.
Qed.

(** ** The operations on doubles *)

(** Values of the conversions and of the C functions. *)
Example doubles_conversions :
  float_of_Z 3 = 3%float
  /\ float_of_Z (-2) = (-2)%float
  /\ float_of_Z 9007199254740993 = 0x1p+53%float
  /\ option_map Qred (Q_of_float 1.5) = Some (3 # 2)
  /\ option_map Qred (Q_of_float (-0.75)) = Some (- (3 # 4))
  /\ option_map Qred (Q_of_float 0x1.999999999999ap-4)
     = Some default_via_size
  /\ Q_of_float infinity = None
  /\ Q_of_float nan = None
  /\ fmod 1 0x1.999999999999ap-3 = 0x1.9999999999998p-3%float
  /\ fmod (-7.5) 2 = (-1.5)%float
  /\ floor (-0.5) = (-1)%float
  /\ floor 2.75 = 2%float.
Proof. repeat split; vm_compute; reflexivity. Qed.

(** Values of the floor division: 1.0 // 0.2 is 4 and 1.0 // 0.1 is 9,
    since the doubles 0.2 and 0.1 lie above one fifth and one tenth; the
    quotient is rounded towards minus infinity; and [int] raises on an
    infinite quotient and on NaN. *)
Example floor_divisions :
  floordiv64 1 0x1.999999999999ap-3 = Ok 4%Z
  /\ floordiv64 1 0x1.999999999999ap-4 = Ok 9%Z
  /\ floordiv64 0x1.3333333333333p-1 0x1.3333333333333p-2 = Ok 2%Z
  /\ floordiv64 7.5 2 = Ok 3%Z
  /\ floordiv64 (-7.5) 2 = Ok (-4)%Z
  /\ floordiv64 7.5 (-2) = Ok (-4)%Z
  /\ floordiv64 1 infinity = Ok 0%Z
  /\ floordiv64 (-1) infinity = Ok (-1)%Z
  /\ floordiv64 1 0 = Raise ZeroDivisionError
  /\ floordiv64 1 (-0) = Raise ZeroDivisionError
  /\ floordiv64 0x1p+1000 0x1p-1000 = Raise OverflowError
  /\ floordiv64 infinity 1 = Raise ValueError
  /\ floordiv64 1 nan = Raise ValueError
  /\ int_of_float 3.75 = Ok 3%Z
  /\ int_of_float (-3.75) = Ok (-3)%Z.
Proof. repeat split; vm_compute; reflexivity. Qed.

(** Values of the gate: 0.7 ** 2 is 0.48999999999999994, below the double
    0.49; the power of 1e200 overflows; and the power is not evaluated when
    the pixel size is below min_width. *)
Example gates :
  pow2_rounded 0x1.6666666666666p-1 = Ok 0x1.f5c28f5c28f5bp-2%float
  /\ gate64 pow2_rounded 0x1.6666666666666p-1
       (mkLayerSpec64 10 0 None (Some 0x1.f5c28f5c28f5cp-2%float)) = Ok false
  /\ gate64 pow2_rounded 1 metal_half64 = Ok true
  /\ gate64 pow2_rounded 0.25 metal_half64 = Ok false
  /\ pow2_rounded pixel_size_1e200 = Raise OverflowError
  /\ pow2_rounded infinity = Ok infinity
  /\ gate64 pow2_rounded pixel_size_1e200 metal_plain64 = Raise OverflowError
  /\ gate64 pow2_rounded pixel_size_1e200
       (mkLayerSpec64 10 0 (Some infinity) None) = Ok false
  /\ max_min_width64 pow2_rounded 1
       [metal_half64; mkLayerSpec64 11 0 (Some 2%float) None;
        mkLayerSpec64 12 0 (Some 0.75%float) None]
     = Ok 0.75%float
  /\ max_min_width64 pow2_rounded 1 [mkLayerSpec64 11 0 (Some 2%float) None]
     = Ok 0%float.
Proof. repeat split; vm_compute; reflexivity. Qed.




(** ** The number and the place of the vias, in binary64 *)




(** With the default via of 0.1 by 0.1 and spacing 0.1 at pixel size 1.0
    the pitch is the double 0.2, a little above one fifth, so that
    1.0 // 0.2 is 4 and the pixel receives 16 vias, starting at
    0.14999999999999997. *)
Example default_via_array :
  floordiv64 1 (via_w64 via_default64 + via_s64 via_default64)%float = Ok 4%Z
  /\ List.length (emitted64 (via_array64 1 0 0 (0 + 1) (0 + 1) via_default64))
     = 16%nat
  /\ nth_error (emitted64 (via_array64 1 0 0 (0 + 1) (0 + 1) via_default64)) 0
     = Some (mkRect64 0x1.3333333333332p-3 0x1.3333333333332p-3
                      0x1.fffffffffffffp-3 0x1.fffffffffffffp-3 20 0).
Proof. repeat split; vm_compute; reflexivity. Qed.

(** ** Pass B in binary64: the Y flip *)

Lemma Q_of_float_finite (f : float) (q : Q) :
  Q_of_float f = Some q ->
  (exists s, Prim2SF f = S754_zero s) \/
  (exists s m e, Prim2SF f = S754_finite s m e).
Proof.
  unfold Q_of_float. destruct (Prim2SF f) as [s|s| |s m e]; try discriminate.
  - intros _. left. now exists s.
  - intros _. right. now exists s, m, e.
Qed.

Lemma SFcompare_finite_refl (s : bool) (m : positive) (e : Z) :
  SFcompare (S754_finite s m e) (S754_finite s m e) = Some Eq.
Proof.
  simpl. destruct s; rewrite Z.compare_refl, Pos.compare_cont_refl; reflexivity.
Qed.

(** The product of an integer 0 and a finite double is a zero, and adding
    a finite double to a zero gives that double. *)
Lemma zero_times_finite (ps : float) (q : Q) :
  Q_of_float ps = Some q ->
  (float_of_Z 0 * ps =? 0)%float = true
  /\ (float_of_Z 0 * ps + ps =? ps)%float = true.
Proof.
  intros Hq. apply Q_of_float_finite in Hq.
  change (float_of_Z 0) with zero.
  assert (Hz : exists s, Prim2SF (zero * ps)%float = S754_zero s).
  { rewrite mul_spec. change (Prim2SF zero) with (S754_zero false).
    destruct Hq as [(s & ->)|(s & m & e & ->)]; eexists; reflexivity. }
  destruct Hz as (s0 & Hz). split.
  - rewrite eqb_spec, Hz. reflexivity.
  - rewrite eqb_spec, add_spec, Hz.
    destruct Hq as [(s & ->)|(s & m & e & ->)].
    + now destruct s0, s.
    + unfold SF64add, SFadd, SFeqb. now rewrite SFcompare_finite_refl.
Qed.

Lemma in_pixel_rects64_fill (pow2 : float -> result float) (g : PixelGrid)
    (c : Constraints64) (ps : float) (y x : Z) (i : nat) (m : LayerSpec64) :
  pixel_at g y x = 0%Z ->
  nth_error (metal_layers64 c) i = Some m ->
  gate64 pow2 ps m = Ok true ->
  In (fill_rect64 g ps y x m) (pixel_rects64 pow2 g c ps y x).
Proof.
  intros Hp Hm G. unfold pixel_rects64. rewrite Hp. simpl.
  apply in_flat_map. exists (i, m). split; [now apply in_enumerate|].
  unfold layer_rects64. simpl. rewrite G. now left.
Qed.




(** ** Failures of the run, in binary64 *)

Lemma outcome64_bind {A B : Type} (m : Gen64 A) (k : A -> Gen64 B) :
  outcome64 (bind64 m k)
  = match outcome64 m with
    | Ok a => outcome64 (k a)
    | Raise e => Raise e
    end.
Proof. unfold bind64, outcome64. now destruct (snd m). Qed.

Lemma emitted64_bind {A B : Type} (m : Gen64 A) (k : A -> Gen64 B) :
  emitted64 (bind64 m k)
  = match outcome64 m with
    | Ok a => emitted64 m ++ emitted64 (k a)
    | Raise e => emitted64 m
    end.
Proof. unfold bind64, outcome64, emitted64. now destruct (snd m). Qed.

(** A loop whose iterations do nothing does nothing. *)
Lemma for_each64_skip {A : Type} (body : A -> Gen64 unit) (xs : list A) :
  (forall a, In a xs -> body a = ret64 tt) ->
  for_each64 xs body = ret64 tt.
Proof.
  intros H. rewrite for_each64_ok.
  - unfold ret64. f_equal. induction xs as [|a rest IH]; simpl; [reflexivity|].
    rewrite (H a) by now left. simpl. apply IH.
    intros b Hb. apply H. now right.
  - intros a Ha. rewrite (H a Ha). reflexivity.
Qed.

Lemma gate64_raises (pow2 : float -> result float) (ps : float)
    (spec : LayerSpec64) (e : exn) :
  gate64 pow2 ps spec = Raise e -> pow2 ps = Raise e.
Proof.
  intros H. apply (proj2 (proj2 (gate64_cases pow2 ps spec))) in H.
  now destruct H.
Qed.

Lemma gate64_returns (pow2 : float -> result float) (ps : float)
    (spec : LayerSpec64) (sq : float) :
  pow2 ps = Ok sq -> exists b, gate64 pow2 ps spec = Ok b.
Proof.
  intros H. unfold gate64. rewrite H.
  destruct (ps <? get (min_width64 spec) 0)%float; eexists; reflexivity.
Qed.

Lemma max_min_width_from64_raises (pow2 : float -> result float) (ps w : float)
    (metals : list LayerSpec64) (e : exn) :
  max_min_width_from64 pow2 ps w metals = Raise e -> pow2 ps = Raise e.
Proof.
  revert w. induction metals as [|m rest IH]; simpl; intros w H; [discriminate|].
  destruct (gate64 pow2 ps m) as [[|]|e'] eqn:G.
  - now apply IH in H.
  - now apply IH in H.
  - inversion H; subst. now apply gate64_raises in G.
Qed.

Lemma max_min_width_from64_returns (pow2 : float -> result float)
    (ps w sq : float) (metals : list LayerSpec64) :
  pow2 ps = Ok sq -> exists w', max_min_width_from64 pow2 ps w metals = Ok w'.
Proof.
  intros Hp. revert w. induction metals as [|m rest IH]; simpl; intros w.
  - now exists w.
  - destruct (gate64_returns pow2 ps m sq Hp) as ([|] & ->); apply IH.
Qed.

Lemma corner_gate64_raises (pow2 : float -> result float) (ps mmw : float)
    (spec : LayerSpec64) (e : exn) :
  corner_gate64 pow2 ps mmw spec = Raise e -> pow2 mmw = Raise e.
Proof.
  unfold corner_gate64. destruct (ps <? mmw)%float; [discriminate|].
  destruct (pow2 mmw); [discriminate|]. congruence.
Qed.

(** On a degenerate grid the loops of lines 74-75 visit no window. *)
Lemma degenerate_no_window (g : PixelGrid) :
  (width g <= 1 \/ height g <= 1)%Z ->
  range (height g - 1) = [] \/ range (width g - 1) = [].
Proof.
  intros [H|H]; [right|left]; apply range_nonpos; lia.
Qed.

Lemma pass_A64_degenerate (pow2 : float -> result float) (g : PixelGrid)
    (c : Constraints64) (ps : float) :
  (width g <= 1 \/ height g <= 1)%Z ->
  pass_A64 pow2 g c ps
  = ([], match max_min_width64 pow2 ps (metal_layers64 c) with
         | Ok _ => Ok tt
         | Raise e => Raise e
         end).
Proof.
  intros H. unfold pass_A64.
  destruct (max_min_width64 pow2 ps (metal_layers64 c)) as [w|e];
    [|reflexivity].
  rewrite bind64_eval.
  destruct (degenerate_no_window g H) as [E|E].
  - now rewrite E.
  - apply for_each64_skip. intros y _. now rewrite E.
Qed.

(** Where an exception of Pass A comes from. *)
Lemma pass_A64_raises (pow2 : float -> result float) (g : PixelGrid)
    (c : Constraints64) (ps : float) (e : exn) :
  outcome64 (pass_A64 pow2 g c ps) = Raise e ->
  pow2 ps = Raise e
  \/ exists mmw, max_min_width64 pow2 ps (metal_layers64 c) = Ok mmw /\
                 pow2 mmw = Raise e.
Proof.
  unfold pass_A64. rewrite outcome64_bind. unfold eval64, outcome64 at 1. simpl.
  destruct (max_min_width64 pow2 ps (metal_layers64 c)) as [w|e0] eqn:E.
  - intros H. right. exists w. split; [reflexivity|].
    apply for_each64_raises in H. destruct H as (y & _ & H).
    apply for_each64_raises in H. destruct H as (x & _ & H).
    assert (Hc : forall cx cy,
      outcome64 (corner_fill64 pow2 ps w cx cy (metal_layers64 c)) = Raise e ->
      pow2 w = Raise e).
    { intros cx cy Hf. unfold corner_fill64 in Hf.
      apply for_each64_raises in Hf. destruct Hf as ([i m] & _ & Hf).
      rewrite outcome64_bind in Hf. unfold eval64, outcome64 at 1 in Hf.
      simpl in Hf.
      destruct (corner_gate64 pow2 ps w m) as [[|]|e1] eqn:G;
        try discriminate.
      inversion Hf; subst. now apply corner_gate64_raises in G. }
    unfold window_fill64 in H.
    destruct (pattern1 _ _ _ _); [now apply Hc in H|].
    destruct (pattern2 _ _ _ _); [now apply Hc in H|]. discriminate.
  - intros H. left. inversion H; subst.
    now apply max_min_width_from64_raises in E.
Qed.

(** Where an exception of Pass B comes from. *)
Lemma pass_B64_raises (pow2 : float -> result float) (g : PixelGrid)
    (c : Constraints64) (ps : float) (e : exn) :
  outcome64 (pass_B64 pow2 g c ps) = Raise e ->
  exists y x i m,
    (0 <= y < height g)%Z /\ (0 <= x < width g)%Z /\ pixel_at g y x = 0%Z
    /\ nth_error (metal_layers64 c) i = Some m
    /\ (pow2 ps = Raise e
        \/ gate64 pow2 ps m = Ok true /\
           exists v, nth_error (via_layers64 c) i = Some v /\
             (floordiv64 ps (pitch_x64 v) = Raise e
              \/ floordiv64 ps (pitch_y64 v) = Raise e)).
Proof.
  unfold pass_B64. intros H.
  apply for_each64_raises in H. destruct H as (y & Hy & H).
  apply for_each64_raises in H. destruct H as (x & Hx & H).
  apply in_range in Hy. apply in_range in Hx.
  unfold pixel_fill64, pixel_box64 in H.
  destruct (pixel_at g y x =? 0)%Z eqn:E; [|discriminate].
  apply Z.eqb_eq in E.
  apply for_each64_raises in H. destruct H as ([i m] & Him & H).
  apply in_enumerate in Him.
  exists y, x, i, m. repeat split; try assumption; try lia.
  destruct (gate64 pow2 ps m) as [[|]|e'] eqn:G.
  - rewrite (pixel_layer64_pass _ _ _ _ _ _ _ _ _ G) in H.
    unfold outcome64 in H. simpl in H. right. split; [reflexivity|].
    unfold via_stack64 in H.
    destruct (nth_error (via_layers64 c) i) as [v|]; [|discriminate].
    exists v. split; [reflexivity|].
    fold (outcome64 (via_array64 ps (float_of_Z x * ps)
            (float_of_Z (height g - 1 - y) * ps)
            (float_of_Z x * ps + ps)
            (float_of_Z (height g - 1 - y) * ps + ps) v)) in H.
    rewrite via_array64_outcome in H.
    destruct (floordiv64 ps (pitch_x64 v)) as [nx|ex]; [|left; congruence].
    destruct (floordiv64 ps (pitch_y64 v)) as [ny|ey]; [discriminate|].
    right. congruence.
  - rewrite (pixel_layer64_skip _ _ _ _ _ _ _ _ _ G) in H. discriminate.
  - rewrite (pixel_layer64_raise _ _ _ _ _ _ _ _ _ _ G) in H.
    inversion H; subst. left. now apply gate64_raises in G.
Qed.

(** Where an exception of Pass D comes from. *)
Lemma pass_D64_raises (pow2 : float -> result float) (g : PixelGrid)
    (c : Constraints64) (ps : float) (e : exn) :
  outcome64 (pass_D64 pow2 g c ps) = Raise e -> pow2 ps = Raise e.
Proof.
  unfold pass_D64. intros H.
  apply for_each64_raises in H. destruct H as (spec & _ & H).
  rewrite outcome64_bind in H. unfold eval64, outcome64 at 1 in H. simpl in H.
  destruct (gate64 pow2 ps spec) as [[|]|e'] eqn:G; try discriminate.
  inversion H; subst. now apply gate64_raises in G.
Qed.

(** The outcome of the run is that of the first pass that raises. *)
Lemma run64_outcome (pow2 : float -> result float) (g : PixelGrid)
    (c : Constraints64) (ps : float) :
  bitmap_to_stacked_logo64 pow2 g c ps
  = match outcome64 (pass_A64 pow2 g c ps),
          outcome64 (pass_B64 pow2 g c ps),
          outcome64 (pass_D64 pow2 g c ps) with
    | Ok _, Ok _, Ok _ =>
        Ok (emitted64 (pass_A64 pow2 g c ps)
            ++ emitted64 (pass_B64 pow2 g c ps)
            ++ logo_rect64 g c ps :: emitted64 (pass_D64 pow2 g c ps))
    | Raise e, _, _ => Raise e
    | Ok _, Raise e, _ => Raise e
    | Ok _, Ok _, Raise e => Raise e
    end.
Proof.
  unfold bitmap_to_stacked_logo64, synthesize64.
  rewrite outcome64_bind, emitted64_bind.
  destruct (outcome64 (pass_A64 pow2 g c ps)) as [[]|eA]; [|reflexivity].
  rewrite outcome64_bind, emitted64_bind.
  destruct (outcome64 (pass_B64 pow2 g c ps)) as [[]|eB]; [|reflexivity].
  rewrite outcome64_bind, emitted64_bind.
  change (outcome64 (pass_C64 g c ps)) with (Ok tt : result unit).
  change (emitted64 (pass_C64 g c ps)) with [logo_rect64 g c ps].
  destruct (outcome64 (pass_D64 pow2 g c ps)) as [[]|eD]; reflexivity.
Qed.

(** Every failure of the synthesis is an exception of the power of the
    gates, evaluated on the pixel size (lines 69, 123, 173) or on the corner
    width (lines 85, 101), or an exception of a floor division of lines
    139-140, for a foreground pixel, a metal layer passing its gate and the
    via layer at its ordinal. *)
Theorem run_failures (pow2 : float -> result float) (g : PixelGrid)
    (c : Constraints64) (ps : float) (e : exn) :
  bitmap_to_stacked_logo64 pow2 g c ps = Raise e ->
  pow2 ps = Raise e
  \/ (exists mmw, max_min_width64 pow2 ps (metal_layers64 c) = Ok mmw /\
                  pow2 mmw = Raise e)
  \/ exists y x i m v,
       (0 <= y < height g)%Z /\ (0 <= x < width g)%Z /\ pixel_at g y x = 0%Z
       /\ nth_error (metal_layers64 c) i = Some m
       /\ gate64 pow2 ps m = Ok true
       /\ nth_error (via_layers64 c) i = Some v
       /\ (floordiv64 ps (via_w64 v + via_s64 v)%float = Raise e
           \/ floordiv64 ps (via_h64 v + via_s64 v)%float = Raise e).
Proof.
  rewrite run64_outcome.
  destruct (outcome64 (pass_A64 pow2 g c ps)) as [[]|eA] eqn:HA.
  - destruct (outcome64 (pass_B64 pow2 g c ps)) as [[]|eB] eqn:HB.
    + destruct (outcome64 (pass_D64 pow2 g c ps)) as [[]|eD] eqn:HD;
        [discriminate|].
      intros H. inversion H; subst. left. now apply pass_D64_raises in HD.
    + intros H. inversion H; subst.
      apply pass_B64_raises in HB.
      destruct HB as (y & x & i & m & Hy & Hx & Hp & Hm & [Hpow|[G (v & Hv & Hf)]]).
      * now left.
      * right. right. now exists y, x, i, m, v.
  - intros H. inversion H; subst.
    apply pass_A64_raises in HA. destruct HA as [HA|HA]; [now left|].
    right. now left.
Qed.

Lemma run_failures_witness :
  pow2_rounded pixel_size_1e200 = Raise OverflowError
  \/ (exists mmw,
        max_min_width64 pow2_rounded pixel_size_1e200
          (metal_layers64 (only_metal64 metal_plain64)) = Ok mmw /\
        pow2_rounded mmw = Raise OverflowError)
  \/ exists y x i m v,
       (0 <= y < height single_pixel)%Z /\ (0 <= x < width single_pixel)%Z
       /\ pixel_at single_pixel y x = 0%Z
       /\ nth_error (metal_layers64 (only_metal64 metal_plain64)) i = Some m
       /\ gate64 pow2_rounded pixel_size_1e200 m = Ok true
       /\ nth_error (via_layers64 (only_metal64 metal_plain64)) i = Some v
       /\ (floordiv64 pixel_size_1e200 (via_w64 v + via_s64 v)%float
           = Raise OverflowError
           \/ floordiv64 pixel_size_1e200 (via_h64 v + via_s64 v)%float
              = Raise OverflowError).
Proof.
  apply (run_failures pow2_rounded single_pixel (only_metal64 metal_plain64)
           pixel_size_1e200 OverflowError).
  vm_compute. reflexivity.
Defined.

(** C9, as amended. For every grid with width <= 1 or height <= 1 the
    loops of lines 74-75 visit no window and Pass A adds zero rectangles;
    Pass A fails only when the power pixel_size ** 2 of line 69 raises, and
    completes whenever that power is evaluated or there is no metal layer;
    Pass C always completes. The run can still fail on such a grid, through
    the power of the gates or through a floor division of lines 139-140 in
    Pass B; when it completes, the cell holds the rectangles of Pass B, the
    outline and the exclusion rectangles. *)
Theorem degenerate_grid_pass_A (pow2 : float -> result float) (g : PixelGrid)
    (c : Constraints64) (ps : float) :
  (width g <= 1 \/ height g <= 1)%Z ->
  (range (height g - 1) = [] \/ range (width g - 1) = [])
  /\ emitted64 (pass_A64 pow2 g c ps) = []
  /\ outcome64 (pass_A64 pow2 g c ps)
     = match max_min_width64 pow2 ps (metal_layers64 c) with
       | Ok _ => Ok tt
       | Raise e => Raise e
       end
  /\ (forall e, outcome64 (pass_A64 pow2 g c ps) = Raise e -> pow2 ps = Raise e)
  /\ ((exists sq, pow2 ps = Ok sq) \/ metal_layers64 c = [] ->
      pass_A64 pow2 g c ps = ret64 tt)
  /\ pass_C64 g c ps = ([logo_rect64 g c ps], Ok tt)
  /\ (forall e, bitmap_to_stacked_logo64 pow2 g c ps = Raise e ->
        pow2 ps = Raise e
        \/ exists y x i m v,
             (0 <= y < height g)%Z /\ (0 <= x < width g)%Z
             /\ pixel_at g y x = 0%Z
             /\ nth_error (metal_layers64 c) i = Some m
             /\ gate64 pow2 ps m = Ok true
             /\ nth_error (via_layers64 c) i = Some v
             /\ (floordiv64 ps (via_w64 v + via_s64 v)%float = Raise e
                 \/ floordiv64 ps (via_h64 v + via_s64 v)%float = Raise e))
  /\ (forall cell, bitmap_to_stacked_logo64 pow2 g c ps = Ok cell ->
        cell = emitted64 (pass_B64 pow2 g c ps)
               ++ logo_rect64 g c ps :: emitted64 (pass_D64 pow2 g c ps)).
Proof.
  intros Hdeg. pose proof (pass_A64_degenerate pow2 g c ps Hdeg) as HA.
  split; [now apply degenerate_no_window|].
  split; [now rewrite HA|].
  split; [now rewrite HA|].
  assert (HAr : forall e, outcome64 (pass_A64 pow2 g c ps) = Raise e ->
                          pow2 ps = Raise e).
  { intros e. rewrite HA. unfold outcome64. simpl.
    destruct (max_min_width64 pow2 ps (metal_layers64 c)) as [w|e0] eqn:E;
      [discriminate|].
    intros H. inversion H; subst.
    now apply max_min_width_from64_raises in E. }
  split; [exact HAr|].
  split.
  { intros [(sq & Hp)|Hm]; rewrite HA.
    - destruct (max_min_width_from64_returns pow2 ps 0 sq (metal_layers64 c) Hp)
        as (w & Hw).
      unfold max_min_width64. now rewrite Hw.
    - now rewrite Hm. }
  split; [reflexivity|].
  split.
  - intros e H. rewrite run64_outcome in H.
    destruct (outcome64 (pass_A64 pow2 g c ps)) as [[]|eA] eqn:EA.
    + destruct (outcome64 (pass_B64 pow2 g c ps)) as [[]|eB] eqn:EB.
      * destruct (outcome64 (pass_D64 pow2 g c ps)) as [[]|eD] eqn:ED;
          [discriminate|].
        inversion H; subst. left. now apply pass_D64_raises in ED.
      * inversion H; subst. apply pass_B64_raises in EB.
        destruct EB as (y & x & i & m & Hy & Hx & Hp & Hm
                        & [Hpow|[G (v & Hv & Hf)]]).
        -- now left.
        -- right. now exists y, x, i, m, v.
    + inversion H; subst. left. now apply HAr.
  - intros cell H. rewrite run64_outcome in H.
    destruct (outcome64 (pass_A64 pow2 g c ps)) as [[]|eA]; [|discriminate].
    destruct (outcome64 (pass_B64 pow2 g c ps)) as [[]|eB]; [|discriminate].
    destruct (outcome64 (pass_D64 pow2 g c ps)) as [[]|eD]; [|discriminate].
    rewrite HA in H. simpl in H. congruence.
Qed.

Lemma degenerate_grid_pass_A_witness :
  emitted64 (pass_A64 pow2_rounded single_pixel
               (metal_and_via64 metal_half64 via_default64) 1) = []
  /\ pass_A64 pow2_rounded single_pixel
       (metal_and_via64 metal_half64 via_default64) 1 = ret64 tt.
Proof.
  assert (H := degenerate_grid_pass_A pow2_rounded single_pixel
                 (metal_and_via64 metal_half64 via_default64) 1).
  assert (H1 : (width single_pixel <= 1 \/ height single_pixel <= 1)%Z)
    by (left; vm_compute; discriminate).
  destruct (H H1) as (_ & Ha & _ & _ & Hb & _).
  split; [exact Ha|].
  apply Hb. left. eexists. vm_compute. reflexivity.
Defined.

(** C9, the claim as stated, fails: on the 1x1 grid with a foreground
    pixel, a metal layer passing its gate and a via layer of width 0.0 (so
    of pitch 0.0), Pass B raises ZeroDivisionError and the run fails; and at
    pixel size 1e200 with a metal layer without min_width the power of line
    69 raises OverflowError, so that Pass A itself fails. *)
Lemma degenerate_grid_failures :
  (width single_pixel <= 1)%Z
  /\ outcome64 (pass_B64 pow2_rounded single_pixel
                  (metal_and_via64 metal_half64 via_flat64) 1)
     = Raise ZeroDivisionError
  /\ bitmap_to_stacked_logo64 pow2_rounded single_pixel
       (metal_and_via64 metal_half64 via_flat64) 1
     = Raise ZeroDivisionError
  /\ outcome64 (pass_A64 pow2_rounded single_pixel
                  (only_metal64 metal_plain64) pixel_size_1e200)
     = Raise OverflowError
  /\ bitmap_to_stacked_logo64 pow2_rounded single_pixel
       (only_metal64 metal_plain64) pixel_size_1e200
     = Raise OverflowError.
Proof.
  split; [vm_compute; discriminate|].
  repeat split; vm_compute; reflexivity.
Qed.

(** ** The SIZE line, in binary64 *)

(** On a tie the printed integer is the even one. *)
Lemma round_half_even_ties (x : Q) :
  inject_Z (round_half_even x) - x == 1 # 2
  \/ x - inject_Z (round_half_even x) == 1 # 2 ->
  Z.even (round_half_even x) = true.
Proof.
  unfold round_half_even.
  pose proof (Qfloor_le x) as Hlo. pose proof (Qlt_floor x) as Hhi.
  rewrite inject_Z_plus in Hhi. change (inject_Z 1) with 1 in Hhi.
  destruct (Qlt_bool (x - inject_Z (Qfloor x)) (1 # 2)) eqn:E1.
  - apply Qlt_bool_iff in E1. intros [H|H]; exfalso; lra.
  - apply Qlt_bool_false_iff in E1.
    assert (Hup : inject_Z (Qfloor x + 1) == inject_Z (Qfloor x) + 1)
      by (rewrite inject_Z_plus; reflexivity).
    destruct (Qlt_bool (1 # 2) (x - inject_Z (Qfloor x))) eqn:E2.
    + apply Qlt_bool_iff in E2. rewrite Hup. intros [H|H]; exfalso; lra.
    + intros _. destruct (Z.even (Qfloor x)) eqn:Ev; [exact Ev|].
      rewrite Z.even_add, Ev. reflexivity.
Qed.



(** ** Pass B without via layers, in binary64 *)

Lemma flat_map_flat_map {A B C : Type} (f : B -> list C) (h : A -> list B)
    (xs : list A) :
  flat_map f (flat_map h xs) = flat_map (fun a => flat_map f (h a)) xs.
Proof.
  induction xs as [|a rest IH]; simpl; [reflexivity|].
  now rewrite flat_map_app, IH.
Qed.

Lemma passes64_iff (pow2 : float -> result float) (ps : float)
    (spec : LayerSpec64) :
  passes64 pow2 ps spec = true <-> gate64 pow2 ps spec = Ok true.
Proof.
  unfold passes64. destruct (gate64 pow2 ps spec) as [[|]|e]; split;
    congruence.
Qed.

(** A loop over the metal layers that adds one rectangle for each layer
    passing its gate. *)
Lemma for_each64_passing {A : Type} (pow2 : float -> result float) (ps : float)
    (spec_of : A -> LayerSpec64) (r : A -> Rectangle64) (xs : list A) :
  (forall a e, In a xs -> gate64 pow2 ps (spec_of a) <> Raise e) ->
  for_each64 xs (fun a =>
    bind64 (eval64 (gate64 pow2 ps (spec_of a)))
           (fun keep => if keep then add64 (r a) else ret64 tt))
  = (map r (filter (fun a => passes64 pow2 ps (spec_of a)) xs), Ok tt).
Proof.
  intros Hok.
  assert (Hbody : forall a, In a xs ->
    bind64 (eval64 (gate64 pow2 ps (spec_of a)))
           (fun keep => if keep then add64 (r a) else ret64 tt)
    = (if passes64 pow2 ps (spec_of a) then [r a] else [], Ok tt)).
  { intros a Ha. unfold passes64.
    destruct (gate64 pow2 ps (spec_of a)) as [[|]|e] eqn:G.
    - now rewrite bind64_eval.
    - now rewrite bind64_eval.
    - exfalso. now apply (Hok a e Ha). }
  rewrite for_each64_ok.
  - f_equal. induction xs as [|a rest IH]; simpl; [reflexivity|].
    rewrite (Hbody a) by now left. simpl.
    rewrite IH.
    + now destruct (passes64 pow2 ps (spec_of a)).
    + intros b e Hb. apply Hok. now right.
    + intros b Hb. apply Hbody. now right.
  - intros a Ha. now rewrite (Hbody a Ha).
Qed.

Lemma for_each64_ext {A : Type} (body body' : A -> Gen64 unit) (xs : list A) :
  (forall a, In a xs -> body a = body' a) ->
  for_each64 xs body = for_each64 xs body'.
Proof.
  induction xs as [|a rest IH]; simpl; intros H; [reflexivity|].
  rewrite (H a) by now left.
  rewrite IH by (intros b Hb; apply H; now right). reflexivity.
Qed.

Lemma filter_map_snd_enumerate_from {A : Type} (p : A -> bool) (xs : list A)
    (i : nat) :
  map snd (filter (fun im => p (snd im)) (enumerate_from i xs)) = filter p xs.
Proof.
  revert i. induction xs as [|a rest IH]; intros i; simpl; [reflexivity|].
  destruct (p a); simpl; now rewrite IH.
Qed.

(** With no via layer and gates that do not raise, Pass B completes and
    adds, for each foreground pixel in the order of the loops of lines
    112-113, the fill rectangle of each metal layer passing its gate, in
    the order of the layers: as many rectangles as there are foreground
    pixels times passing layers. *)
Theorem pass_B_without_vias (pow2 : float -> result float) (g : PixelGrid)
    (c : Constraints64) (ps : float) :
  via_layers64 c = [] ->
  (forall m e, In m (metal_layers64 c) -> gate64 pow2 ps m <> Raise e) ->
  pass_B64 pow2 g c ps
  = (flat_map (fun yx => map (fill_rect64 g ps (fst yx) (snd yx))
                             (filter (passes64 pow2 ps) (metal_layers64 c)))
              (foreground_pixels g), Ok tt)
  /\ List.length (emitted64 (pass_B64 pow2 g c ps))
     = (List.length (foreground_pixels g)
        * List.length (filter (passes64 pow2 ps) (metal_layers64 c)))%nat.
Proof.
  intros Hv Hok.
  assert (Hpix : forall y x,
    pixel_fill64 pow2 g c ps y x
    = (flat_map (fun yx => map (fill_rect64 g ps (fst yx) (snd yx))
                   (filter (passes64 pow2 ps) (metal_layers64 c)))
         (if (pixel_at g y x =? 0)%Z then [(y, x)] else []), Ok tt)).
  { intros y x. unfold pixel_fill64, pixel_box64.
    destruct (pixel_at g y x =? 0)%Z; [|reflexivity].
    simpl. rewrite app_nil_r.
    assert (Hbody : forall im,
      pixel_layer64 pow2 ps (float_of_Z x * ps) (float_of_Z (height g - 1 - y) * ps)
        (float_of_Z x * ps + ps) (float_of_Z (height g - 1 - y) * ps + ps)
        (via_layers64 c) im
      = bind64 (eval64 (gate64 pow2 ps (snd im)))
          (fun keep => if keep then add64 (fill_rect64 g ps y x (snd im))
                       else ret64 tt)).
    { intros [i m]. unfold pixel_layer64. simpl.
      destruct (gate64 pow2 ps m) as [[|]|e]; try reflexivity.
      rewrite !bind64_eval. unfold via_stack64. rewrite Hv.
      now destruct i. }
    rewrite (for_each64_ext _ _ _ (fun im _ => Hbody im)).
    rewrite (for_each64_passing pow2 ps snd
               (fun im => fill_rect64 g ps y x (snd im))).
    - f_equal. unfold enumerate.
      rewrite <- (filter_map_snd_enumerate_from (passes64 pow2 ps)
                    (metal_layers64 c) 0).
      now rewrite map_map.
    - intros [i m] e Him. simpl. apply Hok.
      apply in_enumerate in Him. eapply nth_error_In; eauto. }
  assert (HB : pass_B64 pow2 g c ps
    = (flat_map (fun yx => map (fill_rect64 g ps (fst yx) (snd yx))
                   (filter (passes64 pow2 ps) (metal_layers64 c)))
         (foreground_pixels g), Ok tt)).
  { unfold pass_B64, foreground_pixels.
    rewrite for_each64_ok.
    - f_equal. rewrite flat_map_flat_map. apply flat_map_ext. intros y.
      rewrite for_each64_ok.
      + simpl. rewrite flat_map_flat_map. apply flat_map_ext. intros x.
        now rewrite Hpix.
      + intros x _. now rewrite Hpix.
    - intros y _. rewrite for_each64_ok; [reflexivity|].
      intros x _. now rewrite Hpix. }
  split; [exact HB|].
  rewrite HB. simpl.
  rewrite (length_flat_map_const _
             (List.length (filter (passes64 pow2 ps) (metal_layers64 c)))).
  - reflexivity.
  - intros yx _. apply length_map.
Qed.

Lemma pass_B_without_vias_witness :
  List.length (emitted64 (pass_B64 pow2_rounded row3
                            (only_metal64 metal_half64) pixel_size_06))
  = (List.length (foreground_pixels row3)
     * List.length (filter (passes64 pow2_rounded pixel_size_06)
                           (metal_layers64 (only_metal64 metal_half64))))%nat.
Proof.
  apply (proj2 (pass_B_without_vias pow2_rounded row3
                  (only_metal64 metal_half64) pixel_size_06 eq_refl
                  ltac:(intros m e [<-|[]]; vm_compute; discriminate))).
Defined.

(** ** Pass D: the exclusion rectangles, in binary64 *)

(** Pass D fails only when the power of line 173 raises; when no gate
    raises it completes and adds one rectangle for each exclusion layer
    that passes the gate, in the order of the layers, and none for the
    others; every rectangle it adds, also before a failure, has the tags of
    an exclusion layer passing the gate and the corners of the logo
    outline; and the pass depends on the grid through its width and height
    only. *)
Theorem pass_D_exclusion_rects (pow2 : float -> result float) (g : PixelGrid)
    (c : Constraints64) (ps : float) :
  (forall e, outcome64 (pass_D64 pow2 g c ps) = Raise e -> pow2 ps = Raise e)
  /\ ((forall spec e, In spec (DMxEXCL_layer_info64 c) ->
         gate64 pow2 ps spec <> Raise e) ->
      pass_D64 pow2 g c ps
      = (map (excl_rect64 g ps)
             (filter (passes64 pow2 ps) (DMxEXCL_layer_info64 c)), Ok tt))
  /\ (forall r, In r (emitted64 (pass_D64 pow2 g c ps)) ->
        exists spec, In spec (DMxEXCL_layer_info64 c)
          /\ gate64 pow2 ps spec = Ok true
          /\ r = mkRect64 0 0 (float_of_Z (width g) * ps)
                          (float_of_Z (height g) * ps)
                          (layer64 spec) (datatype64 spec))
  /\ (forall r, In r (emitted64 (pass_D64 pow2 g c ps)) ->
        fx0 r = fx0 (logo_rect64 g c ps) /\ fy0 r = fy0 (logo_rect64 g c ps)
        /\ fx1 r = fx1 (logo_rect64 g c ps) /\ fy1 r = fy1 (logo_rect64 g c ps))
  /\ (forall g', width g' = width g -> height g' = height g ->
        pass_D64 pow2 g' c ps = pass_D64 pow2 g c ps).
Proof.
  assert (Hin : forall r, In r (emitted64 (pass_D64 pow2 g c ps)) ->
    exists spec, In spec (DMxEXCL_layer_info64 c)
      /\ gate64 pow2 ps spec = Ok true
      /\ r = mkRect64 0 0 (float_of_Z (width g) * ps)
                      (float_of_Z (height g) * ps)
                      (layer64 spec) (datatype64 spec)).
  { intros r Hr. unfold pass_D64 in Hr.
    apply in_emitted64_for_each in Hr. destruct Hr as (spec & Hs & Hr).
    exists spec. split; [exact Hs|].
    destruct (gate64 pow2 ps spec) as [[|]|e] eqn:G.
    - split; [reflexivity|]. rewrite bind64_eval in Hr.
      destruct Hr as [<-|[]]. reflexivity.
    - rewrite bind64_eval in Hr. contradiction.
    - contradiction. }
  split; [apply pass_D64_raises|].
  split.
  { intros Hok. unfold pass_D64.
    now rewrite (for_each64_passing pow2 ps (fun spec => spec)
                   (excl_rect64 g ps)). }
  split; [exact Hin|].
  split.
  { intros r Hr. destruct (Hin r Hr) as (spec & _ & _ & ->).
    repeat split. }
  intros g' Hw Hh. unfold pass_D64, excl_rect64. now rewrite Hw, Hh.
Qed.

Lemma pass_D_exclusion_rects_witness :
  pass_D64 pow2_rounded row3
    (mkConstraints64 [] [] None [metal_half64; metal_plain64]) pixel_size_06
  = (map (excl_rect64 row3 pixel_size_06)
         (filter (passes64 pow2_rounded pixel_size_06)
                 [metal_half64; metal_plain64]), Ok tt).
Proof.
  apply (proj1 (proj2 (pass_D_exclusion_rects pow2_rounded row3
           (mkConstraints64 [] [] None [metal_half64; metal_plain64])
           pixel_size_06))).
  intros spec e [<-|[<-|[]]]; vm_compute; discriminate.
Defined.

(** ** Pass A in binary64: where the corner square is *)

Lemma corner_fill64_rects (pow2 : float -> result float)
    (ps mmw cx cy : float) (metals : list LayerSpec64) (r : Rectangle64) :
  In r (emitted64 (corner_fill64 pow2 ps mmw cx cy metals)) ->
  exists m, In m metals /\ corner_gate64 pow2 ps mmw m = Ok true
            /\ r = corner_rect64 cx cy mmw m.
Proof.
  unfold corner_fill64. intros H.
  apply in_emitted64_for_each in H. destruct H as ([i m] & Him & H).
  simpl in H. exists m.
  split; [apply in_enumerate in Him; eapply nth_error_In; eauto|].
  destruct (corner_gate64 pow2 ps mmw m) as [[|]|e] eqn:G.
  - rewrite bind64_eval in H. destruct H as [<-|[]]. now split.
  - rewrite bind64_eval in H. contradiction.
  - contradiction.
Qed.

(** Every rectangle of Pass A is a square of a window of the grid that
    shows a diagonal pattern, on a metal layer passing the corner gate; its
    centre is the lower left corner of the fill box of the top-right pixel
    of the window, computed by the same products, and its corners lie half
    the corner width away from the centre on each axis. *)
Theorem corner_square_centre (pow2 : float -> result float) (g : PixelGrid)
    (c : Constraints64) (ps : float) (r : Rectangle64) :
  In r (emitted64 (pass_A64 pow2 g c ps)) ->
  exists mmw y x m,
    max_min_width64 pow2 ps (metal_layers64 c) = Ok mmw
    /\ (0 <= y < height g - 1)%Z /\ (0 <= x < width g - 1)%Z
    /\ diagonal g y x = true
    /\ In m (metal_layers64 c)
    /\ corner_gate64 pow2 ps mmw m = Ok true
    /\ fx0 r = (fx0 (fill_rect64 g ps y (x + 1) m) - mmw / 2)%float
    /\ fx1 r = (fx0 (fill_rect64 g ps y (x + 1) m) + mmw / 2)%float
    /\ fy0 r = (fy0 (fill_rect64 g ps y (x + 1) m) - mmw / 2)%float
    /\ fy1 r = (fy0 (fill_rect64 g ps y (x + 1) m) + mmw / 2)%float
    /\ flayer r = layer64 m /\ fdatatype r = datatype64 m.
Proof.
  unfold pass_A64. rewrite emitted64_bind.
  unfold eval64, outcome64 at 1, emitted64 at 1. simpl.
  destruct (max_min_width64 pow2 ps (metal_layers64 c)) as [mmw|e];
    [|contradiction].
  simpl. intros H.
  apply in_emitted64_for_each in H. destruct H as (y & Hy & H).
  apply in_emitted64_for_each in H. destruct H as (x & Hx & H).
  apply in_range in Hy. apply in_range in Hx.
  assert (Hd : diagonal g y x = true /\
    In r (emitted64 (corner_fill64 pow2 ps mmw
            (float_of_Z (x + 1) * ps) (float_of_Z (height g - (y + 1)) * ps)
            (metal_layers64 c)))).
  { unfold window_fill64 in H. unfold diagonal.
    destruct (pattern1 _ _ _ _); [now split|].
    destruct (pattern2 _ _ _ _); [now split|]. contradiction. }
  destruct Hd as [Hd Hr].
  apply corner_fill64_rects in Hr. destruct Hr as (m & Hm & G & ->).
  exists mmw, y, x, m.
  replace (height g - (y + 1))%Z with (height g - 1 - y)%Z by lia.
  repeat split; try assumption; lia.
Qed.

Lemma corner_square_centre_witness :
  exists mmw y x m,
    max_min_width64 pow2_rounded 1
      (metal_layers64 (only_metal64 metal_half64)) = Ok mmw
    /\ (0 <= y < height checkerboard - 1)%Z
    /\ (0 <= x < width checkerboard - 1)%Z
    /\ diagonal checkerboard y x = true
    /\ In m (metal_layers64 (only_metal64 metal_half64))
    /\ corner_gate64 pow2_rounded 1 mmw m = Ok true
    /\ fx0 (mkRect64 0.75 0.75 1.25 1.25 10 0)
       = (fx0 (fill_rect64 checkerboard 1 y (x + 1) m) - mmw / 2)%float
    /\ fx1 (mkRect64 0.75 0.75 1.25 1.25 10 0)
       = (fx0 (fill_rect64 checkerboard 1 y (x + 1) m) + mmw / 2)%float
    /\ fy0 (mkRect64 0.75 0.75 1.25 1.25 10 0)
       = (fy0 (fill_rect64 checkerboard 1 y (x + 1) m) - mmw / 2)%float
    /\ fy1 (mkRect64 0.75 0.75 1.25 1.25 10 0)
       = (fy0 (fill_rect64 checkerboard 1 y (x + 1) m) + mmw / 2)%float
    /\ flayer (mkRect64 0.75 0.75 1.25 1.25 10 0) = layer64 m
    /\ fdatatype (mkRect64 0.75 0.75 1.25 1.25 10 0) = datatype64 m.
Proof.
  apply (corner_square_centre pow2_rounded checkerboard
           (only_metal64 metal_half64) 1).
  vm_compute. left. reflexivity.
Defined.
